(** * fire_entropy.py: the particle fire, its colour ramp and its draw order

    A shallow embedding of [FireWidget] from [src/fire_entropy.py]: the
    colour mapping ([_clamp01], [_lerp], [_lerp_color], [_fire_color]), the
    simulation ([_spawn_particles], [_update_particles], [tick]), the
    particle pass of [paintGL], the mouse handlers, the aspect ratio of
    [resizeGL] and the vertices of [_draw_burner] and [_draw_faint_box].

    Conventions of the model.
    - A Python [float] is a real number of [R]: arithmetic is exact, there
      is no rounding, no infinity and no NaN.  [QVector3D] is a triple of
      reals.
    - [random.random()] reads the next element of a sequence of draws
      [draws : nat -> R]; the position in the sequence is threaded through
      the code by the monad [Rand].  Properties that need the draws to be in
      the half-open unit interval say so.
    - [self.timer.remainingTime()] is an input of [_update_particles].
    - The OpenGL calls of the particle pass are represented by the list of
      spheres handed to [_draw_sphere], in call order. *)

From Stdlib Require Import Reals Lra Lia ZArith List Permutation Sorted.
Import ListNotations.
Local Open Scope R_scope.

(** ** Python numerics *)

(** [int(x)] on a float: truncation towards zero. *)
Definition py_int (x : R) : Z :=
  if Rle_dec 0 x then Zfloor x else Zceil x.

(** [x ** y] for a base [x >= 0] and an exponent [y > 0], the only way the
    program uses it ([age01 ** 1.6] after clamping, [random() ** 0.6]):
    [0.0 ** y] is [0.0], and a positive base gives [exp (y * ln x)]. *)
Definition py_pow (x y : R) : R :=
  if Rle_dec x 0 then 0 else Rpower x y.

(** [math.tau] *)
Definition tau : R := 2 * PI.

(** [range(count)] runs [count] times, and not at all when [count <= 0]. *)
Definition range_len (count : Z) : nat := Z.to_nat count.

(** [xs[-n:]] for [n >= 1]: the last [n] elements, the whole list when it
    has fewer. *)
Definition py_last {A : Type} (n : nat) (xs : list A) : list A :=
  skipn (length xs - n) xs.

(** ** Data *)

Record QVector3D : Type := mkVec { vec_x : R; vec_y : R; vec_z : R }.

Definition dotProduct (a b : QVector3D) : R :=
  vec_x a * vec_x b + vec_y a * vec_y b + vec_z a * vec_z b.

Record FireParticle : Type := mkParticle {
  pos : QVector3D;
  vel : QVector3D;
  life : R;      (* seconds remaining *)
  life0 : R;     (* initial life *)
  radius : R;
  seed : R       (* for slight per-particle variation *)
}.

Record FireWidget : Type := mkWidget {
  particles : list FireParticle;
  energy : R;    (* energy in [0..1] *)
  rot_x : R;
  rot_y : R;
  dt : R         (* fixed-ish timestep *)
}.

(** [FireWidget.__init__], followed by the [on_energy_changed] call of
    [ControlBar.__init__] with the slider at 50. *)
Definition init_widget : FireWidget :=
  mkWidget [] 0.5 18 35 (1 / 120).

Definition set_particles (w : FireWidget) (ps : list FireParticle) : FireWidget :=
  mkWidget ps (energy w) (rot_x w) (rot_y w) (dt w).

(** [ControlBar.on_energy_changed]: [v] is the slider value. *)
Definition on_energy_changed (v : Z) (w : FireWidget) : FireWidget :=
  mkWidget (particles w) (IZR v / 100) (rot_x w) (rot_y w) (dt w).

(** [mouseMoveEvent] while dragging: [dx], [dy] are the pointer deltas. *)
Definition mouseMoveEvent (dx dy : R) (w : FireWidget) : FireWidget :=
  mkWidget (particles w) (energy w) (rot_x w + dy * 0.5) (rot_y w + dx * 0.5)
    (dt w).

(** ** Colour mapping *)

Definition Color : Type := (R * R * R)%type.

Definition _clamp01 (x : R) : R := Rmax 0 (Rmin 1 x).

Definition _lerp (a b t : R) : R := a + (b - a) * t.

Definition chan0 (c : Color) : R := fst (fst c).
Definition chan1 (c : Color) : R := snd (fst c).
Definition chan2 (c : Color) : R := snd c.

Definition _lerp_color (c0 c1 : Color) (t : R) : Color :=
  let t := _clamp01 t in
  (_lerp (chan0 c0) (chan0 c1) t,
   _lerp (chan1 c0) (chan1 c1) t,
   _lerp (chan2 c0) (chan2 c1) t).

Definition low_hot : Color := (1.00, 0.15, 0.05).
Definition low_mid : Color := (1.00, 0.55, 0.10).
Definition low_tip : Color := (1.00, 0.95, 0.25).
Definition high_hot : Color := (0.10, 0.25, 1.00).
Definition high_mid : Color := (0.10, 0.95, 1.00).
Definition high_tip : Color := (0.90, 0.95, 1.00).

Definition scale_color (c : Color) (k : R) : Color :=
  (chan0 c * k, chan1 c * k, chan2 c * k).

Definition _fire_color (energy age01 : R) : Color :=
  let energy := _clamp01 energy in
  let age01 := _clamp01 age01 in
  let hot := _lerp_color low_hot high_hot energy in
  let mid := _lerp_color low_mid high_mid energy in
  let tip := _lerp_color low_tip high_tip energy in
  let rgb :=
    if Rlt_dec age01 0.5
    then _lerp_color hot mid (age01 / 0.5)
    else _lerp_color mid tip ((age01 - 0.5) / 0.5) in
  let fade := 1.0 - py_pow age01 1.6 * 0.75 in
  scale_color rgb fade.

(** ** Random draws *)

(** A computation that consumes draws: from the index of the next draw to a
    result and the index after it. *)
Definition Rand (A : Type) : Type := nat -> A * nat.

Definition ret {A : Type} (a : A) : Rand A := fun k => (a, k).

Definition bind {A B : Type} (m : Rand A) (f : A -> Rand B) : Rand B :=
  fun k => let (a, k') := m k in f a k'.

Notation "x <- m ;; f" := (bind m (fun x => f))
  (at level 61, m at next level, right associativity).

Section Simulation.

(** The sequence of values [random.random()] returns. *)
Variable draws : nat -> R.

Definition random : Rand R := fun k => (draws k, S k).

(** [random.uniform(a, b)] is [a + (b - a) * random()]. *)
Definition uniform (a b : R) : Rand R :=
  u <- random ;; ret (a + (b - a) * u).

(** *** _spawn_particles *)

(** Lines 230-233: the number of particles of this tick. *)
Definition spawn_count (e : R) : Rand Z :=
  let spawn_float := _lerp 1.5 10.0 e in
  let count := py_int spawn_float in
  u <- random ;;
  ret (if Rlt_dec u (spawn_float - IZR count) then (count + 1)%Z else count).

(** Lines 236-266: one round of the spawning loop builds one particle. *)
Definition new_particle (e : R) : Rand FireParticle :=
  let r := 0.18 + 0.10 * (1.0 - e) in
  u_angle <- random ;;
  let angle := u_angle * tau in
  u_rad <- random ;;
  let rad := py_pow u_rad 0.6 * r in
  let x := cos angle * rad in
  let z := sin angle * rad in
  jitter <- uniform 0.0 0.05 ;;
  let y := -1.0 + jitter in
  let base_up := _lerp 0.9 2.4 e in
  vy <- uniform (base_up * 0.6) (base_up * 1.1) ;;
  let side := _lerp 0.45 0.9 e in
  vx <- uniform (- side) side ;;
  vz <- uniform (- side) side ;;
  l0 <- uniform (_lerp 0.55 0.85 e) (_lerp 0.85 1.25 e) ;;
  rd <- uniform (_lerp 0.045 0.030 e) (_lerp 0.070 0.050 e) ;;
  u_seed <- random ;;
  ret (mkParticle (mkVec x y z) (mkVec vx vy vz) l0 l0 rd (u_seed * 9999.0)).

(** [for _ in range(count): ...; self.particles.append(p)] *)
Fixpoint spawn_loop (n : nat) (e : R) (ps : list FireParticle)
  : Rand (list FireParticle) :=
  match n with
  | O => ret ps
  | S n' => p <- new_particle e ;; spawn_loop n' e (ps ++ [p])
  end.

(** Lines 269-271: cap count to keep it fast. *)
Definition cap (ps : list FireParticle) : list FireParticle :=
  if (2500 <? length ps)%nat then py_last 2500 ps else ps.

Definition _spawn_particles (w : FireWidget) : Rand FireWidget :=
  let e := energy w in
  count <- spawn_count e ;;
  ps <- spawn_loop (range_len count) e (particles w) ;;
  ret (set_particles w (cap ps)).

(** *** _update_particles *)

(** One round of the loop over [self.particles] (lines 287-319): the
    particle object as the round leaves it, and whether it was appended to
    [alive].  A particle whose life runs out is left with its new [life]
    and nothing else changed ([continue]). *)
Definition update_body (buoyancy swirl damping t dt : R) (p : FireParticle)
  : FireParticle * bool :=
  let life' := life p - dt in
  if Rle_dec life' 0
  then (mkParticle (pos p) (vel p) life' (life0 p) (radius p) (seed p), false)
  else
    let age01 := 1.0 - life' / Rmax (life0 p) 1e-6 in
    let v1y := vec_y (vel p) + buoyancy * dt in
    let phase := seed p * 0.001 + age01 * 6.0 + t * 3.0 in
    let tx := sin (phase * 3.7) * cos (phase * 1.9) in
    let tz := cos (phase * 2.9) * sin (phase * 2.3) in
    let v1x := vec_x (vel p) + tx * swirl * dt in
    let v1z := vec_z (vel p) + tz * swirl * dt in
    let v2 := mkVec (v1x * damping) (v1y * damping) (v1z * damping) in
    let p1 := mkVec (vec_x (pos p) + vec_x v2 * dt)
                    (vec_y (pos p) + vec_y v2 * dt)
                    (vec_z (pos p) + vec_z v2 * dt) in
    let radius' := radius p * (1.0 + 0.25 * dt) in
    let p2 := mkVec (vec_x p1 * 0.999) (vec_y p1) (vec_z p1 * 0.999) in
    (mkParticle p2 v2 life' (life0 p) radius' (seed p), true).

(** [for p in self.particles: ...; alive.append(p)] *)
Fixpoint update_loop (body : FireParticle -> FireParticle * bool)
  (ps alive : list FireParticle) : list FireParticle :=
  match ps with
  | [] => alive
  | p :: rest =>
      let (p', kept) := body p in
      update_loop body rest (if kept then alive ++ [p'] else alive)
  end.

(** The body of the loop for this call: the constants of lines 277-284. *)
Definition body_of (remaining : Z) (dt : R) (w : FireWidget)
  : FireParticle -> FireParticle * bool :=
  let e := energy w in
  let buoyancy := _lerp 1.2 3.2 e in
  let swirl := _lerp 0.8 2.1 e in
  let damping := _lerp 0.985 0.992 e in
  let t := IZR (remaining mod 1000) / 1000.0 in
  update_body buoyancy swirl damping t dt.

(** [remaining] is what [self.timer.remainingTime()] returns. *)
Definition _update_particles (remaining : Z) (dt : R) (w : FireWidget)
  : FireWidget :=
  set_particles w (update_loop (body_of remaining dt w) (particles w) []).

(** *** tick *)

Definition tick (remaining : Z) (w : FireWidget) : Rand FireWidget :=
  w1 <- _spawn_particles w ;;
  ret (_update_particles remaining (dt w1) w1).

End Simulation.

(** ** The particle pass of paintGL *)

Definition cam_dir : QVector3D := mkVec 0 0 1.

(** The sort key of line 146. *)
Definition depth (p : FireParticle) : R := dotProduct (pos p) cam_dir.

(** [sorted(xs, key=key, reverse=True)]: Python's sort is stable, and with
    [reverse=True] elements of equal key still keep their original order.
    The result of a stable sort is determined by its input, so it is
    computed here by insertion from the right. *)
Fixpoint insert_desc {A : Type} (key : A -> R) (x : A) (l : list A) : list A :=
  match l with
  | [] => [x]
  | y :: l' =>
      if Rlt_dec (key x) (key y) then y :: insert_desc key x l'
      else x :: y :: l'
  end.

Definition sorted_reverse {A : Type} (key : A -> R) (l : list A) : list A :=
  fold_right (insert_desc key) [] l.

(** Descending by key: the earlier element has the larger or equal key. *)
Definition desc {A : Type} (key : A -> R) (a b : A) : Prop := key b <= key a.

(** The arguments of one [_draw_sphere] call. *)
Record Sphere : Type := mkSphere {
  sph_x : R; sph_y : R; sph_z : R;
  sph_radius : R;
  sph_rgb : Color;
  sph_alpha : R
}.

(** [age01] as [paintGL] (line 154) and [_update_particles] (line 291)
    compute it. *)
Definition age01_of (p : FireParticle) : R :=
  1.0 - life p / Rmax (life0 p) 1e-6.

(** Lines 154-160. *)
Definition draw_particle (e : R) (p : FireParticle) : Sphere :=
  let age01 := age01_of p in
  let rgb := _fire_color e age01 in
  let alpha := 0.18 * (1.0 - age01) + 0.02 in
  mkSphere (vec_x (pos p)) (vec_y (pos p)) (vec_z (pos p)) (radius p) rgb alpha.

Definition parts_sorted (w : FireWidget) : list FireParticle :=
  sorted_reverse depth (particles w).

(** The spheres [paintGL] draws, in call order. *)
Definition paintGL (w : FireWidget) : list Sphere :=
  map (draw_particle (energy w)) (parts_sorted w).

(** ** Derived views of the simulation *)

(** The particles the spawning loop builds in [n] rounds, first built
    first, when the next draw has index [k]. *)
Fixpoint spawned (draws : nat -> R) (n : nat) (e : R) (k : nat)
  : list FireParticle :=
  match n with
  | O => []
  | S n' =>
      fst (new_particle draws e k)
        :: spawned draws n' e (snd (new_particle draws e k))
  end.

(** The particles one [_spawn_particles] call appends to [self.particles]
    before the cap is applied. *)
Definition inserted (draws : nat -> R) (w : FireWidget) (k : nat)
  : list FireParticle :=
  spawned draws (range_len (fst (spawn_count draws (energy w) k)))
    (energy w) (snd (spawn_count draws (energy w) k)).

(** Of the [N] equally spaced draws [0/N, 1/N, ..., (N-1)/N], the number
    for which [_spawn_particles] takes the extra particle at energy [e]. *)
Definition extra_draws (N : nat) (e : R) : nat :=
  length
    (filter
       (fun j => Z.eqb (fst (spawn_count (fun _ => INR j / INR N) e 0%nat))
                       (py_int (_lerp 1.5 10.0 e) + 1)%Z)
       (seq 0%nat N)).

(** What [_update_particles] leaves in [alive]: the particles the loop body
    keeps, as the body leaves them, in the order of the list it walks. *)
Definition survivors (body : FireParticle -> FireParticle * bool)
  (ps : list FireParticle) : list FireParticle :=
  map (fun p => fst (body p)) (filter (fun p => snd (body p)) ps).

(** ** The states the program goes through *)

(** The widget starts as [init_widget]; the slider, whose range is 0..100,
    sets the energy; the mouse turns the camera; the timer calls [tick],
    that is [_spawn_particles] and then [_update_particles] with [self.dt].
    The two halves of [tick] are separate steps, so that the state between
    them is covered as well. *)
Inductive reachable (draws : nat -> R) : FireWidget -> Prop :=
| reach_init : reachable draws init_widget
| reach_energy (w : FireWidget) (v : Z) :
    reachable draws w -> (0 <= v <= 100)%Z ->
    reachable draws (on_energy_changed v w)
| reach_mouse (w : FireWidget) (dx dy : R) :
    reachable draws w -> reachable draws (mouseMoveEvent dx dy w)
| reach_spawn (w : FireWidget) (k : nat) :
    reachable draws w -> reachable draws (fst (_spawn_particles draws w k))
| reach_update (w : FireWidget) (remaining : Z) :
    reachable draws w -> reachable draws (_update_particles remaining (dt w) w).

(** What holds of every particle of a reachable state. *)
Definition particle_ok (p : FireParticle) : Prop :=
  0 < radius p /\ 0.55 <= life0 p <= 1.25 /\ 0 < life p <= life0 p.

Definition widget_ok (w : FireWidget) : Prop :=
  0 <= energy w <= 1 /\ dt w = 1 / 120 /\ Forall particle_ok (particles w).

(** ** The spec's colour ramp, for comparison with [_fire_color] *)

(** These definitions follow the words of the spec and share nothing with
    the embedding of the code above: plain triples and plain arithmetic. *)

(** The linear interpolation between [x] and [y] with factor [t]. *)
Definition spec_mix (x y t : R) : R := x + (y - x) * t.

(** The hot, mid and tip reference colours, interpolated between their
    values at energy 0 and at energy 1. *)
Definition spec_hot (e : R) : R * R * R :=
  (spec_mix 1.00 0.10 e, spec_mix 0.15 0.25 e, spec_mix 0.05 1.00 e).
Definition spec_mid (e : R) : R * R * R :=
  (spec_mix 1.00 0.10 e, spec_mix 0.55 0.95 e, spec_mix 0.10 1.00 e).
Definition spec_tip (e : R) : R * R * R :=
  (spec_mix 1.00 0.90 e, spec_mix 0.95 0.95 e, spec_mix 0.25 1.00 e).

(** The linear blend of two colours with factor [t]. *)
Definition spec_blend (c0 c1 : R * R * R) (t : R) : R * R * R :=
  let '(r0, g0, b0) := c0 in
  let '(r1, g1, b1) := c1 in
  (spec_mix r0 r1 t, spec_mix g0 g1 t, spec_mix b0 b1 t).

(** [a ^ 1.6] for [a >= 0]: 0 at 0, [exp (1.6 * ln a)] above. *)
Definition spec_pow16 (a : R) : R :=
  if Req_dec_T a 0 then 0 else exp (1.6 * ln a).

(** The fade [1 - a^1.6 * 0.75]. *)
Definition spec_fade (a : R) : R := 1 - spec_pow16 a * 0.75.

(** A colour multiplied, component by component, by [k]. *)
Definition spec_times (c : R * R * R) (k : R) : R * R * R :=
  let '(r, g, b) := c in (r * k, g * k, b * k).

(** The two-segment ramp over the lifetime, multiplied by the fade. *)
Definition spec_ramp (e a : R) : R * R * R :=
  spec_times
    (if Rlt_dec a 0.5
     then spec_blend (spec_hot e) (spec_mid e) (a / 0.5)
     else spec_blend (spec_mid e) (spec_tip e) ((a - 0.5) / 0.5))
    (spec_fade a).

Definition unit_color (c : Color) : Prop :=
  0 <= chan0 c <= 1 /\ 0 <= chan1 c <= 1 /\ 0 <= chan2 c <= 1.

(** ** Mouse rotation *)








(** ** Static scene geometry *)

Definition Vertex : Type := (R * R * R)%type.

(** [resizeGL]: the aspect ratio handed to [gluPerspective]. *)
Definition resize_aspect (w h : Z) : R := IZR w / IZR (Z.max h 1).

(** [_draw_burner]: the vertices between [glBegin(GL_TRIANGLE_FAN)] and
    [glEnd], in call order. *)
Definition burner_rim (i : nat) : Vertex :=
  let R0 := 0.35 in
  let a := INR i / 40.0 * tau in
  (cos a * R0, -1.0, sin a * R0).

Definition _draw_burner : list Vertex :=
  (0.0, -1.0, 0.0) :: map burner_rim (seq 0 41).

(** [_draw_faint_box]: the corners, the edges as index pairs, and the
    vertices of the [GL_LINES] list; a list index out of range raises
    [IndexError], which is [None] here. *)
Definition box_corners (s : R) : list Vertex :=
  [ (- s, - s, - s); (s, - s, - s); (s, s, - s); (- s, s, - s);
    (- s, - s, s); (s, - s, s); (s, s, s); (- s, s, s) ].

Definition box_edges : list (nat * nat) :=
  [ (0, 1); (1, 2); (2, 3); (3, 0);
    (4, 5); (5, 6); (6, 7); (7, 4);
    (0, 4); (1, 5); (2, 6); (3, 7) ]%nat.

Fixpoint box_lines (corners : list Vertex) (edges : list (nat * nat))
  : option (list Vertex) :=
  match edges with
  | [] => Some []
  | (a, b) :: rest =>
      match nth_error corners a, nth_error corners b with
      | Some va, Some vb =>
          match box_lines corners rest with
          | Some vs => Some (va :: vb :: vs)
          | None => None
          end
      | _, _ => None
      end
  end.

Definition _draw_faint_box (s : R) : option (list Vertex) :=
  box_lines (box_corners s) box_edges.

(** Squared distance of two vertices. *)
Definition dist2 (a b : Vertex) : R :=
  (fst (fst a) - fst (fst b)) * (fst (fst a) - fst (fst b))
  + (snd (fst a) - snd (fst b)) * (snd (fst a) - snd (fst b))
  + (snd a - snd b) * (snd a - snd b).

(** ** The program driven by its timer *)

(** As [reachable], with the whole [tick] as one step: the states between
    timer callbacks. *)
Inductive running (draws : nat -> R) : FireWidget -> Prop :=
| run_init : running draws init_widget
| run_energy (w : FireWidget) (v : Z) :
    running draws w -> (0 <= v <= 100)%Z ->
    running draws (on_energy_changed v w)
| run_mouse (w : FireWidget) (dx dy : R) :
    running draws w -> running draws (mouseMoveEvent dx dy w)
| run_tick (w : FireWidget) (k : nat) (remaining : Z) :
    running draws w -> running draws (fst (tick draws remaining w k)).

(** A list made of batches of at most 11 particles, oldest batch first; the
    batch that has gone through [j] updates has lives in
    [(0, 1.25 - j/120]]. *)
Inductive layered : nat -> list FireParticle -> Prop :=
| layered_nil (j : nat) : layered j []
| layered_snoc (j : nat) (older batch : list FireParticle) :
    layered (S j) older ->
    (length batch <= 11)%nat ->
    Forall (fun p => 0 < life p <= 1.25 - INR j / 120) batch ->
    layered j (older ++ batch).

(** One particle followed through successive [_update_particles] calls,
    each with its own loop body; [None] once it has been left out. *)
Fixpoint run_updates (bodies : list (FireParticle -> FireParticle * bool))
  (p : FireParticle) : option FireParticle :=
  match bodies with
  | [] => Some p
  | body :: rest =>
      let (p', kept) := body p in
      if kept then run_updates rest p' else None
  end.

(** The loop bodies of calls with time step [step] and the given constants
    (buoyancy, swirl, damping, t). *)
Definition bodies_of (step : R) (params : list (R * R * R * R))
  : list (FireParticle -> FireParticle * bool) :=
  map (fun '(b, sw, d, t) => update_body b sw d t step) params.

(** What holds of the motion of every particle of a reachable state. *)
Definition particle_rising (p : FireParticle) : Prop :=
  0 < vec_y (vel p) /\ -1 <= vec_y (pos p).

(** The radius against the time lived. *)
Definition radius_bounded (p : FireParticle) : Prop :=
  0.03 <= radius p <= 0.07 * exp (0.25 * (life0 p - life p)).

(** A colour none of whose channels is below 0.05, the smallest entry of
    the six palette colours. *)
Definition lit_color (c : Color) : Prop :=
  0.05 <= chan0 c <= 1 /\ 0.05 <= chan1 c <= 1 /\ 0.05 <= chan2 c <= 1.

(** [key p == c] as a test. *)
Definition key_is {A : Type} (key : A -> R) (c : R) (a : A) : bool :=
  if Req_dec_T (key a) c then true else false.

(** Speed limits and the region a particle can have reached, against the
    time it has lived. *)
Definition particle_bounded (p : FireParticle) : Prop :=
  - 2.5 <= vec_x (vel p) <= 2.5 /\
  - 2.5 <= vec_z (vel p) <= 2.5 /\
  vec_y (vel p) <= 3.5 /\
  - (0.28 + 2.5 * (life0 p - life p)) <= vec_x (pos p)
    <= 0.28 + 2.5 * (life0 p - life p) /\
  - (0.28 + 2.5 * (life0 p - life p)) <= vec_z (pos p)
    <= 0.28 + 2.5 * (life0 p - life p) /\
  vec_y (pos p) <= -0.95 + 3.5 * (life0 p - life p).

(** ** The camera of paintGL *)

(** Lines 135-137 multiply the modelview matrix by a translation by
    (0, -0.2, -5), a rotation by [rot_x] degrees about the x axis and a
    rotation by [rot_y] degrees about the y axis.  OpenGL applies them to a
    vertex last to first, and the eye sits at the origin of the resulting
    space looking along its negative z axis.  [eye_z] is the z coordinate
    of a world point in that space; [eye_distance] is how far in front of
    the eye, along the viewing direction, the centre of a particle lies. *)
Definition radians (degrees : R) : R := degrees * PI / 180.

Definition eye_z (w : FireWidget) (v : QVector3D) : R :=
  let a := radians (rot_x w) in
  let b := radians (rot_y w) in
  let z1 := - sin b * vec_x v + cos b * vec_z v in
  sin a * vec_y v + cos a * z1 + -5.0.

Definition eye_distance (w : FireWidget) (p : FireParticle) : R :=
  - eye_z w (pos p).

(** * Properties *)

(** ** Numerics *)

Lemma clamp01_range (x : R) : 0 <= _clamp01 x <= 1.
Proof.
  unfold _clamp01, Rmax, Rmin.
  destruct (Rle_dec 1 x); destruct (Rle_dec 0 _); lra.
Qed.

Lemma clamp01_id (x : R) : 0 <= x <= 1 -> _clamp01 x = x.
Proof.
  intros Hx. unfold _clamp01, Rmax, Rmin.
  destruct (Rle_dec 1 x); destruct (Rle_dec 0 _); lra.
Qed.

Lemma clamp01_above (x : R) : 1 <= x -> _clamp01 x = 1.
Proof.
  intros Hx. unfold _clamp01, Rmax, Rmin.
  destruct (Rle_dec 1 x); destruct (Rle_dec 0 _); lra.
Qed.

Lemma clamp01_below (x : R) : x <= 0 -> _clamp01 x = 0.
Proof.
  intros Hx. unfold _clamp01, Rmax, Rmin.
  destruct (Rle_dec 1 x); destruct (Rle_dec 0 _); lra.
Qed.

Lemma clamp01_idem (x : R) : _clamp01 (_clamp01 x) = _clamp01 x.
Proof. apply clamp01_id, clamp01_range. Qed.

Lemma lerp_unit (a b t : R) :
  0 <= a <= 1 -> 0 <= b <= 1 -> 0 <= t <= 1 -> 0 <= _lerp a b t <= 1.
Proof. unfold _lerp. intros Ha Hb Ht. split; nra. Qed.

Lemma py_pow_zero (y : R) : py_pow 0 y = 0.
Proof. unfold py_pow. destruct (Rle_dec 0 0); [reflexivity | lra]. Qed.

Lemma py_pow_one (y : R) : py_pow 1 y = 1.
Proof.
  unfold py_pow. destruct (Rle_dec 1 0); [lra |].
  unfold Rpower. rewrite ln_1, Rmult_0_r. apply exp_0.
Qed.

Lemma py_pow_unit (x y : R) : 0 <= x <= 1 -> 0 <= y -> 0 <= py_pow x y <= 1.
Proof.
  intros Hx Hy. unfold py_pow. destruct (Rle_dec x 0) as [H0 | H0]; [lra |].
  unfold Rpower. split.
  - left. apply exp_pos.
  - assert (Hln : ln x <= 0).
    { destruct (Req_dec x 1) as [-> | Hne].
      - rewrite ln_1. lra.
      - left. rewrite <- ln_1. apply ln_increasing; lra. }
    destruct (Req_dec (y * ln x) 0) as [-> | Hne].
    + rewrite exp_0. lra.
    + left. rewrite <- exp_0. apply exp_increasing. nra.
Qed.

(** ** Colour mapping *)

Lemma lerp_color_unit (c0 c1 : Color) (t : R) :
  unit_color c0 -> unit_color c1 -> unit_color (_lerp_color c0 c1 t).
Proof.
  intros (H0 & H1 & H2) (K0 & K1 & K2).
  pose proof (clamp01_range t) as Ht.
  unfold unit_color, _lerp_color, chan0, chan1, chan2; cbn [fst snd].
  repeat split; apply lerp_unit; assumption.
Qed.

Lemma palette_unit :
  unit_color low_hot /\ unit_color low_mid /\ unit_color low_tip /\
  unit_color high_hot /\ unit_color high_mid /\ unit_color high_tip.
Proof.
  unfold unit_color, low_hot, low_mid, low_tip, high_hot, high_mid, high_tip,
    chan0, chan1, chan2; cbn [fst snd].
  repeat split; lra.
Qed.

Lemma scale_color_unit (c : Color) (k : R) :
  unit_color c -> 0 <= k <= 1 -> unit_color (scale_color c k).
Proof.
  intros (H0 & H1 & H2) Hk.
  unfold unit_color, scale_color, chan0, chan1, chan2 in *; cbn [fst snd] in *.
  repeat split; nra.
Qed.

Lemma fire_color_clamps (e a : R) :
  _fire_color e a = _fire_color (_clamp01 e) (_clamp01 a).
Proof. unfold _fire_color. now rewrite !clamp01_idem. Qed.

(** C6. [_fire_color] is a function of its two arguments alone, defined at
    every real energy and age: it works on the clamped arguments, and each
    of the three components of its result lies in [0,1]. *)
Theorem fire_color_total_unit (e a : R) :
  _fire_color e a = _fire_color (_clamp01 e) (_clamp01 a) /\
  0 <= chan0 (_fire_color e a) <= 1 /\
  0 <= chan1 (_fire_color e a) <= 1 /\
  0 <= chan2 (_fire_color e a) <= 1.
Proof.
  split; [apply fire_color_clamps |].
  destruct palette_unit as (P1 & P2 & P3 & P4 & P5 & P6).
  change (unit_color (_fire_color e a)).
  unfold _fire_color.
  apply scale_color_unit.
  - destruct (Rlt_dec (_clamp01 a) 0.5);
      apply lerp_color_unit; apply lerp_color_unit; assumption.
  - pose proof (py_pow_unit (_clamp01 a) 1.6 (clamp01_range a)) as Hp.
    lra.
Qed.

Lemma py_pow_spec (a : R) : 0 <= a -> py_pow a 1.6 = spec_pow16 a.
Proof.
  intros Ha. unfold py_pow, spec_pow16, Rpower.
  destruct (Rle_dec a 0) as [H0 | H0]; destruct (Req_dec_T a 0) as [E | E];
    try reflexivity; exfalso; lra.
Qed.

Lemma spec_pow16_ends : spec_pow16 0 = 0 /\ spec_pow16 1 = 1.
Proof.
  unfold spec_pow16. split.
  - destruct (Req_dec_T 0 0) as [_ | H]; [reflexivity | lra].
  - destruct (Req_dec_T 1 0) as [H | _]; [lra |].
    rewrite ln_1, Rmult_0_r. apply exp_0.
Qed.

(** C7. For an energy and an age fraction in [0,1], [_fire_color] is the
    spec's ramp: below one half the blend of the energy-interpolated hot and
    mid references with factor [a/0.5], otherwise the blend of mid and tip
    with factor [(a-0.5)/0.5], each component times the fade
    [1 - a^1.6 * 0.75]; at age 0 it is the hot reference and at age 1 the
    tip reference with each component times 0.25. *)
Theorem fire_color_spec_ramp (e a : R) :
  0 <= e <= 1 -> 0 <= a <= 1 ->
  _fire_color e a = spec_ramp e a /\
  _fire_color e 0 = spec_hot e /\
  _fire_color e 0
  = (1.00 + (0.10 - 1.00) * e, 0.15 + (0.25 - 0.15) * e,
     0.05 + (1.00 - 0.05) * e) /\
  _fire_color e 1
  = ((1.00 + (0.90 - 1.00) * e) * 0.25, (0.95 + (0.95 - 0.95) * e) * 0.25,
     (0.25 + (1.00 - 0.25) * e) * 0.25).
Proof.
  intros He Ha.
  assert (Hramp : forall x, 0 <= x <= 1 -> _fire_color e x = spec_ramp e x).
  { intros x Hx.
    unfold _fire_color, spec_ramp, spec_fade, _lerp_color.
    rewrite !(clamp01_id e He), !(clamp01_id x Hx).
    rewrite (py_pow_spec x) by lra.
    unfold spec_hot, spec_mid, spec_tip, spec_blend, spec_times, spec_mix,
      scale_color, low_hot, low_mid, low_tip, high_hot, high_mid, high_tip,
      _lerp, chan0, chan1, chan2.
    replace 1.0 with 1 by lra.
    destruct (Rlt_dec x 0.5) as [Hlt | Hge]; cbn [fst snd].
    - rewrite (clamp01_id (x / 0.5)) by lra. reflexivity.
    - rewrite (clamp01_id ((x - 0.5) / 0.5)) by lra. reflexivity. }
  destruct spec_pow16_ends as [P0 P1].
  split; [apply Hramp, Ha |].
  assert (H0 : _fire_color e 0
               = (1.00 + (0.10 - 1.00) * e, 0.15 + (0.25 - 0.15) * e,
                  0.05 + (1.00 - 0.05) * e)).
  { rewrite Hramp by lra. unfold spec_ramp, spec_fade. rewrite P0.
    destruct (Rlt_dec 0 0.5) as [_ | Hn]; [| lra].
    unfold spec_hot, spec_mid, spec_blend, spec_times, spec_mix.
    f_equal; [f_equal |]; lra. }
  split; [| split].
  - rewrite H0. unfold spec_hot, spec_mix. reflexivity.
  - exact H0.
  - rewrite Hramp by lra. unfold spec_ramp, spec_fade. rewrite P1.
    destruct (Rlt_dec 1 0.5) as [Hn | _]; [lra |].
    unfold spec_mid, spec_tip, spec_blend, spec_times, spec_mix.
    f_equal; [f_equal |]; lra.
Qed.

Lemma fire_color_spec_ramp_witness :
  _fire_color 0.5 0.25 = spec_ramp 0.5 0.25 /\
  _fire_color 0.5 0 = spec_hot 0.5 /\
  _fire_color 0.5 0
  = (1.00 + (0.10 - 1.00) * 0.5, 0.15 + (0.25 - 0.15) * 0.5,
     0.05 + (1.00 - 0.05) * 0.5) /\
  _fire_color 0.5 1
  = ((1.00 + (0.90 - 1.00) * 0.5) * 0.25, (0.95 + (0.95 - 0.95) * 0.5) * 0.25,
     (0.25 + (1.00 - 0.25) * 0.5) * 0.25).
Proof. apply (fire_color_spec_ramp 0.5 0.25); lra. Defined.

(** ** Spawning *)

Lemma py_int_floor (x : R) : 0 <= x -> py_int x = Zfloor x.
Proof. intros Hx. unfold py_int. destruct (Rle_dec 0 x); [reflexivity | lra]. Qed.

Lemma spawn_rate_range (e : R) : 0 <= e <= 1 -> 1.5 <= _lerp 1.5 10.0 e <= 10.
Proof. unfold _lerp. intros He. lra. Qed.

Lemma spawn_count_fst (draws : nat -> R) (e : R) (k : nat) :
  fst (spawn_count draws e k) =
  (py_int (_lerp 1.5 10.0 e) +
   (if Rlt_dec (draws k) (_lerp 1.5 10.0 e - IZR (py_int (_lerp 1.5 10.0 e)))
    then 1 else 0))%Z.
Proof.
  unfold spawn_count, bind, random, ret; cbn [fst].
  destruct (Rlt_dec _ _); lia.
Qed.

Lemma spawn_count_snd (draws : nat -> R) (e : R) (k : nat) :
  snd (spawn_count draws e k) = S k.
Proof. reflexivity. Qed.

Lemma spawned_length (draws : nat -> R) (n : nat) (e : R) (k : nat) :
  length (spawned draws n e k) = n.
Proof.
  revert k. induction n as [| n IH]; intros k; cbn [spawned length].
  - reflexivity.
  - now rewrite IH.
Qed.

Lemma spawn_loop_spawned (draws : nat -> R) (n : nat) (e : R)
  (ps : list FireParticle) (k : nat) :
  fst (spawn_loop draws n e ps k) = ps ++ spawned draws n e k.
Proof.
  revert ps k. induction n as [| n IH]; intros ps k.
  - cbn. now rewrite app_nil_r.
  - cbn [spawn_loop spawned]. unfold bind at 1.
    destruct (new_particle draws e k) as [p k'] eqn:Hp. cbn [fst snd].
    rewrite IH, <- app_assoc. reflexivity.
Qed.

Lemma spawn_particles_inserted (draws : nat -> R) (w : FireWidget) (k : nat) :
  particles (fst (_spawn_particles draws w k)) =
  cap (particles w ++ inserted draws w k).
Proof.
  unfold _spawn_particles, inserted. unfold bind at 1.
  destruct (spawn_count draws (energy w) k) as [count k1] eqn:Hc.
  cbn [fst snd]. unfold bind.
  pose proof (spawn_loop_spawned draws (range_len count) (energy w)
                (particles w) k1) as Hl.
  destruct (spawn_loop draws (range_len count) (energy w) (particles w) k1)
    as [ps k2].
  cbn [fst] in Hl. subst ps. reflexivity.
Qed.

Lemma py_last_length {A : Type} (n : nat) (xs : list A) :
  length (py_last n xs) = Nat.min n (length xs).
Proof. unfold py_last. rewrite length_skipn. lia. Qed.

Lemma py_last_suffix {A : Type} (n : nat) (xs : list A) :
  xs = firstn (length xs - n) xs ++ py_last n xs.
Proof. unfold py_last. symmetry. apply firstn_skipn. Qed.

Lemma cap_length (ps : list FireParticle) : (length (cap ps) <= 2500)%nat.
Proof.
  unfold cap. destruct (Nat.ltb_spec 2500 (length ps)).
  - rewrite py_last_length. lia.
  - assumption.
Qed.

Lemma cap_small (ps : list FireParticle) :
  (length ps <= 2500)%nat -> cap ps = ps.
Proof.
  intros H. unfold cap. destruct (Nat.ltb_spec 2500 (length ps)); [lia | reflexivity].
Qed.

Lemma cap_large (ps : list FireParticle) :
  (2500 < length ps)%nat ->
  cap ps = skipn (length ps - 2500) ps /\ length (cap ps) = 2500%nat.
Proof.
  intros H. unfold cap. destruct (Nat.ltb_spec 2500 (length ps)); [| lia].
  split; [reflexivity |]. rewrite py_last_length. lia.
Qed.

Lemma cap_prefix (ps : list FireParticle) :
  ps = firstn (length ps - 2500) ps ++ cap ps.
Proof.
  unfold cap. destruct (Nat.ltb_spec 2500 (length ps)).
  - apply py_last_suffix.
  - replace (length ps - 2500)%nat with 0%nat by lia. reflexivity.
Qed.

(** C1. Whatever the population and the energy before the call, after
    [_spawn_particles] there are at most 2500 particles; with [all] the old
    particles followed by the inserted ones, the result is [all] when it has
    at most 2500 elements, and otherwise [all] without its first
    [length all - 2500] elements, which leaves exactly the last 2500. *)
Theorem spawn_cap (draws : nat -> R) (w : FireWidget) (k : nat) :
  let after := particles (fst (_spawn_particles draws w k)) in
  let all := particles w ++ inserted draws w k in
  (length after <= 2500)%nat /\
  all = firstn (length all - 2500) all ++ after /\
  ((length all <= 2500)%nat -> after = all) /\
  ((2500 < length all)%nat ->
     after = skipn (length all - 2500) all /\ length after = 2500%nat).
Proof.
  cbv zeta. rewrite spawn_particles_inserted.
  split; [apply cap_length |].
  split; [apply cap_prefix |].
  split; [apply cap_small | apply cap_large].
Qed.

Lemma count_below (m N : nat) :
  length (filter (fun j => (j <? m)%nat) (seq 0 N)) = Nat.min m N.
Proof.
  induction N as [| N IH].
  - cbn. lia.
  - rewrite seq_S, filter_app, length_app, IH. cbn [Nat.add filter].
    destruct (Nat.ltb_spec N m); cbn [length]; lia.
Qed.

Lemma extra_iff_below (N m j : nat) (e : R) :
  (0 < N)%nat ->
  _lerp 1.5 10.0 e - IZR (py_int (_lerp 1.5 10.0 e)) = INR m / INR N ->
  Z.eqb (fst (spawn_count (fun _ => INR j / INR N) e 0%nat))
        (py_int (_lerp 1.5 10.0 e) + 1)%Z
  = (j <? m)%nat.
Proof.
  intros HN Hfrac. rewrite spawn_count_fst, Hfrac.
  assert (HNpos : 0 < INR N) by (apply lt_0_INR; exact HN).
  destruct (Rlt_dec (INR j / INR N) (INR m / INR N)) as [Hlt | Hge];
    destruct (Nat.ltb_spec j m) as [Hjm | Hjm].
  - apply Z.eqb_eq. lia.
  - exfalso. apply le_INR in Hjm.
    apply (Rmult_lt_compat_r (INR N)) in Hlt; [| exact HNpos].
    unfold Rdiv in Hlt. rewrite !Rmult_assoc, Rinv_l, !Rmult_1_r in Hlt; lra.
  - exfalso. apply Hge. apply lt_INR in Hjm.
    unfold Rdiv. apply Rmult_lt_compat_r; [apply Rinv_0_lt_compat; exact HNpos | exact Hjm].
  - apply Z.eqb_neq. lia.
Qed.

Lemma extra_draws_count (N m : nat) (e : R) :
  (0 < N)%nat -> (m <= N)%nat ->
  _lerp 1.5 10.0 e - IZR (py_int (_lerp 1.5 10.0 e)) = INR m / INR N ->
  extra_draws N e = m.
Proof.
  intros HN Hm Hfrac. unfold extra_draws.
  rewrite (filter_ext _ (fun j => (j <? m)%nat)).
  - rewrite count_below. lia.
  - intros j. apply extra_iff_below; assumption.
Qed.

(** C3. For an energy in [0,1] and a draw in [0,1): with [rate] the value
    [lerp(1.5, 10.0, energy)] and [frac] its fractional part, the call
    inserts [floor rate] particles plus one more exactly when the draw is
    below [frac]; of [N] equally likely draws [j/N], exactly [frac * N] give
    the extra particle whenever that is a whole number, which is the
    probability [frac]; at energy 1 the call inserts 10 particles and at
    energy 0 it inserts 1 or 2. *)
Theorem spawn_count_stochastic_rounding
  (draws : nat -> R) (w : FireWidget) (k : nat) :
  0 <= energy w <= 1 -> 0 <= draws k < 1 ->
  let rate := _lerp 1.5 10.0 (energy w) in
  let frac := rate - IZR (Zfloor rate) in
  let extra := if Rlt_dec (draws k) frac then 1%nat else 0%nat in
  0 <= frac < 1 /\
  length (inserted draws w k) = (Z.to_nat (Zfloor rate) + extra)%nat /\
  particles (fst (_spawn_particles draws w k)) =
    cap (particles w ++ inserted draws w k) /\
  (forall N m : nat, (0 < N)%nat -> frac = INR m / INR N ->
     extra_draws N (energy w) = m) /\
  (energy w = 1 -> length (inserted draws w k) = 10%nat) /\
  (energy w = 0 ->
     length (inserted draws w k) = 1%nat \/ length (inserted draws w k) = 2%nat).
Proof.
  intros He Hu. cbv zeta.
  set (rate := _lerp 1.5 10.0 (energy w)).
  pose proof (spawn_rate_range (energy w) He) as Hrate. fold rate in Hrate.
  pose proof (Zfloor_bound rate) as Hfl.
  assert (Hint : py_int rate = Zfloor rate) by (apply py_int_floor; lra).
  assert (Hpos : (1 <= Zfloor rate)%Z).
  { apply Zfloor_lub. lra. }
  assert (Hlen : length (inserted draws w k) =
                 (Z.to_nat (Zfloor rate) +
                  (if Rlt_dec (draws k) (rate - IZR (Zfloor rate))
                   then 1 else 0))%nat).
  { unfold inserted. rewrite spawned_length. unfold range_len.
    rewrite spawn_count_fst. fold rate. rewrite Hint.
    destruct (Rlt_dec _ _); lia. }
  split; [lra |]. split; [exact Hlen |].
  split; [apply spawn_particles_inserted |].
  split; [| split].
  - intros N m HN Hfrac. apply extra_draws_count; try assumption.
    + assert (HNpos : 0 < INR N) by (apply lt_0_INR; exact HN).
      apply INR_le. apply Rnot_lt_le. intros Hlt.
      assert (H1 : 1 < INR m / INR N).
      { unfold Rdiv. apply (Rmult_lt_reg_r (INR N)); [exact HNpos |].
        rewrite Rmult_assoc, Rinv_l, Rmult_1_r; lra. }
      rewrite <- Hfrac in H1. lra.
    + fold rate. rewrite Hint. exact Hfrac.
  - intros E1. rewrite Hlen.
    assert (Hr : rate = 10) by (unfold rate, _lerp; rewrite E1; lra).
    assert (Hf : Zfloor rate = 10%Z) by (apply Zfloor_eq; lra).
    rewrite Hf. clear Hlen.
    destruct (Rlt_dec (draws k) (rate - 10)) as [Hlt | _]; [lra | reflexivity].
  - intros E0. rewrite Hlen.
    assert (Hr : rate = 1.5) by (unfold rate, _lerp; rewrite E0; lra).
    assert (Hf : Zfloor rate = 1%Z) by (apply Zfloor_eq; lra).
    rewrite Hf. clear Hlen.
    destruct (Rlt_dec (draws k) (rate - 1)); [right | left]; reflexivity.
Qed.

Lemma spawn_count_stochastic_rounding_witness :
  length (inserted (fun _ => 0) (on_energy_changed 100 init_widget) 0) = 10%nat.
Proof.
  apply (spawn_count_stochastic_rounding
           (fun _ => 0) (on_energy_changed 100 init_widget) 0);
    cbn [energy on_energy_changed]; lra.
Defined.

Lemma cap_keeps_tail (old ins : list FireParticle) :
  (length ins <= 2500)%nat ->
  cap (old ++ ins) = skipn (length (old ++ ins) - 2500) old ++ ins.
Proof.
  intros Hins. unfold cap, py_last.
  destruct (Nat.ltb_spec 2500 (length (old ++ ins))) as [Hbig | Hsmall].
  - rewrite skipn_app. f_equal.
    rewrite length_app.
    replace (length old + length ins - 2500 - length old)%nat with 0%nat by lia.
    reflexivity.
  - replace (length (old ++ ins) - 2500)%nat with 0%nat by lia. reflexivity.
Qed.

Lemma new_particle_fields (draws : nat -> R) (e : R) (k : nat) :
  let p := fst (new_particle draws e k) in
  life p = life0 p /\
  life0 p = _lerp 0.55 0.85 e
            + (_lerp 0.85 1.25 e - _lerp 0.55 0.85 e) * draws (k + 6)%nat /\
  radius p = _lerp 0.045 0.030 e
             + (_lerp 0.070 0.050 e - _lerp 0.045 0.030 e) * draws (k + 7)%nat /\
  snd (new_particle draws e k) = (k + 9)%nat.
Proof.
  unfold new_particle, uniform, bind, random, ret.
  cbn [fst snd life life0 radius].
  replace (k + 6)%nat with (S (S (S (S (S (S k)))))) by lia.
  replace (k + 7)%nat with (S (S (S (S (S (S (S k))))))) by lia.
  replace (k + 9)%nat with (S (S (S (S (S (S (S (S (S k))))))))) by lia.
  repeat split; reflexivity.
Qed.

Lemma new_particle_ok (draws : nat -> R) (e : R) (k : nat) :
  (forall n, 0 <= draws n < 1) -> 0 <= e <= 1 ->
  particle_ok (fst (new_particle draws e k)).
Proof.
  intros Hd He.
  destruct (new_particle_fields draws e k) as (Hl & Hl0 & Hr & _).
  pose proof (Hd (k + 6)%nat) as H6. pose proof (Hd (k + 7)%nat) as H7.
  unfold particle_ok. rewrite Hl, Hl0, Hr. unfold _lerp. repeat split; nra.
Qed.

Lemma spawned_ok (draws : nat -> R) (n : nat) (e : R) (k : nat) :
  (forall i, 0 <= draws i < 1) -> 0 <= e <= 1 ->
  Forall particle_ok (spawned draws n e k).
Proof.
  intros Hd He. revert k. induction n as [| n IH]; intros k; cbn [spawned].
  - constructor.
  - constructor; [apply new_particle_ok; assumption | apply IH].
Qed.

Lemma inserted_ok (draws : nat -> R) (w : FireWidget) (k : nat) :
  (forall i, 0 <= draws i < 1) -> 0 <= energy w <= 1 ->
  Forall particle_ok (inserted draws w k).
Proof. intros Hd He. unfold inserted. now apply spawned_ok. Qed.

Lemma spawned_fresh (draws : nat -> R) (n : nat) (e : R) (k : nat) :
  Forall (fun p => life p = life0 p) (spawned draws n e k).
Proof.
  revert k. induction n as [| n IH]; intros k; cbn [spawned].
  - constructor.
  - constructor; [apply new_particle_fields | apply IH].
Qed.

Lemma inserted_fresh (draws : nat -> R) (w : FireWidget) (k : nat) :
  (forall i, 0 <= draws i < 1) -> 0 <= energy w <= 1 ->
  Forall (fun p => 0.55 <= life p) (inserted draws w k).
Proof.
  intros Hd He.
  pose proof (inserted_ok draws w k Hd He) as Hok.
  pose proof (spawned_fresh draws
                (range_len (fst (spawn_count draws (energy w) k)))
                (energy w) (snd (spawn_count draws (energy w) k))) as Hfr.
  fold (inserted draws w k) in Hfr.
  rewrite Forall_forall in *. intros p Hin.
  destruct (Hok p Hin) as (_ & Hl0 & _). rewrite (Hfr p Hin). lra.
Qed.

Lemma inserted_bounds (draws : nat -> R) (w : FireWidget) (k : nat) :
  0 <= energy w <= 1 ->
  (1 <= length (inserted draws w k) <= 11)%nat /\
  (1 <= py_int (_lerp 1.5 10.0 (energy w)))%Z.
Proof.
  intros He.
  pose proof (spawn_rate_range (energy w) He) as Hrate.
  pose proof (Zfloor_bound (_lerp 1.5 10.0 (energy w))) as Hfl.
  assert (Hint : py_int (_lerp 1.5 10.0 (energy w))
                 = Zfloor (_lerp 1.5 10.0 (energy w)))
    by (apply py_int_floor; lra).
  assert (Hlo : (1 <= Zfloor (_lerp 1.5 10.0 (energy w)))%Z)
    by (apply Zfloor_lub; lra).
  assert (Hhi : (Zfloor (_lerp 1.5 10.0 (energy w)) <= 10)%Z).
  { apply le_IZR. lra. }
  unfold inserted. rewrite spawned_length, spawn_count_fst, Hint.
  unfold range_len. destruct (Rlt_dec _ _); lia.
Qed.

(** ** Updating *)

Lemma update_loop_survivors (body : FireParticle -> FireParticle * bool)
  (ps alive : list FireParticle) :
  update_loop body ps alive = alive ++ survivors body ps.
Proof.
  revert alive. induction ps as [| p rest IH]; intros alive.
  - cbn. now rewrite app_nil_r.
  - cbn [update_loop]. unfold survivors. cbn [filter].
    destruct (body p) as [p' kept] eqn:Hb. cbn [snd].
    rewrite IH. destruct kept.
    + cbn [map]. rewrite Hb. cbn [fst]. now rewrite <- app_assoc.
    + reflexivity.
Qed.

Lemma update_particles_survivors (remaining : Z) (step : R) (w : FireWidget) :
  particles (_update_particles remaining step w) =
  survivors (body_of remaining step w) (particles w).
Proof.
  unfold _update_particles. cbn [particles set_particles].
  now rewrite update_loop_survivors.
Qed.

Lemma survivors_app (body : FireParticle -> FireParticle * bool)
  (l1 l2 : list FireParticle) :
  survivors body (l1 ++ l2) = survivors body l1 ++ survivors body l2.
Proof. unfold survivors. now rewrite filter_app, map_app. Qed.

Lemma survivors_in (body : FireParticle -> FireParticle * bool)
  (ps : list FireParticle) (q : FireParticle) :
  In q (survivors body ps) <->
  exists p, In p ps /\ snd (body p) = true /\ q = fst (body p).
Proof.
  unfold survivors. rewrite in_map_iff. split.
  - intros (p & Hq & Hin). apply filter_In in Hin. destruct Hin as (Hin & Hk).
    exists p. auto.
  - intros (p & Hin & Hk & Hq). exists p. split; [auto |].
    apply filter_In. auto.
Qed.

Section UpdateBody.

Variables buoyancy swirl damping t step : R.

Lemma update_body_life (p : FireParticle) :
  life (fst (update_body buoyancy swirl damping t step p)) = life p - step.
Proof.
  unfold update_body. destruct (Rle_dec (life p - step) 0); reflexivity.
Qed.

Lemma update_body_life0 (p : FireParticle) :
  life0 (fst (update_body buoyancy swirl damping t step p)) = life0 p.
Proof.
  unfold update_body. destruct (Rle_dec (life p - step) 0); reflexivity.
Qed.

Lemma update_body_kept (p : FireParticle) :
  snd (update_body buoyancy swirl damping t step p) = true <-> 0 < life p - step.
Proof.
  unfold update_body.
  destruct (Rle_dec (life p - step) 0); cbn [snd]; split; intros H;
    try reflexivity; try discriminate; lra.
Qed.

Lemma update_body_dropped (p : FireParticle) :
  snd (update_body buoyancy swirl damping t step p) = false <-> life p - step <= 0.
Proof.
  unfold update_body.
  destruct (Rle_dec (life p - step) 0); cbn [snd]; split; intros H;
    try reflexivity; try discriminate; lra.
Qed.

Lemma update_body_dead (p : FireParticle) :
  life p - step <= 0 ->
  fst (update_body buoyancy swirl damping t step p) =
  mkParticle (pos p) (vel p) (life p - step) (life0 p) (radius p) (seed p).
Proof.
  intros H. unfold update_body.
  destruct (Rle_dec (life p - step) 0); [reflexivity | lra].
Qed.

Lemma update_body_radius (p : FireParticle) :
  0 < life p - step ->
  radius (fst (update_body buoyancy swirl damping t step p)) = radius p * (1.0 + 0.25 * step).
Proof.
  intros H. unfold update_body.
  destruct (Rle_dec (life p - step) 0); [lra | reflexivity].
Qed.

Lemma update_body_ok (p : FireParticle) :
  0 < step -> particle_ok p -> 0 < life p - step ->
  particle_ok (fst (update_body buoyancy swirl damping t step p)).
Proof.
  intros Hs (Hr & Hl0 & Hl) Hk. unfold particle_ok.
  rewrite update_body_life, update_body_life0, update_body_radius by exact Hk.
  repeat split; nra.
Qed.

End UpdateBody.

Lemma age01_of_spec (p : FireParticle) :
  1e-6 <= life0 p -> age01_of p = 1 - life p / life0 p.
Proof.
  intros H. unfold age01_of. rewrite Rmax_left by exact H. lra.
Qed.

(** ** Reachable states *)

Lemma cap_ok (ps : list FireParticle) :
  Forall particle_ok ps -> Forall particle_ok (cap ps).
Proof.
  intros H. rewrite (cap_prefix ps) in H. now apply Forall_app in H.
Qed.

Lemma survivors_ok (remaining : Z) (step : R) (w : FireWidget) :
  0 < step -> Forall particle_ok (particles w) ->
  Forall particle_ok (survivors (body_of remaining step w) (particles w)).
Proof.
  intros Hs Hall. apply Forall_forall. intros q Hq.
  apply survivors_in in Hq. destruct Hq as (p & Hin & Hk & ->).
  unfold body_of in *. apply update_body_kept in Hk.
  apply update_body_ok; try assumption.
  rewrite Forall_forall in Hall. now apply Hall.
Qed.

Lemma reachable_ok (draws : nat -> R) (w : FireWidget) :
  (forall n, 0 <= draws n < 1) -> reachable draws w -> widget_ok w.
Proof.
  intros Hd Hr. induction Hr as [| w v Hr IH Hv | w dx dy Hr IH | w k Hr IH
                                | w remaining Hr IH].
  - unfold widget_ok, init_widget; cbn [energy dt particles].
    repeat split; try lra. constructor.
  - destruct IH as (He & Hdt & Hps).
    unfold widget_ok, on_energy_changed; cbn [energy dt particles].
    destruct Hv as [Hv0 Hv1]. apply IZR_le in Hv0. apply IZR_le in Hv1.
    repeat split; try assumption; lra.
  - exact IH.
  - destruct IH as (He & Hdt & Hps).
    unfold widget_ok. rewrite spawn_particles_inserted.
    assert (Hsame : energy (fst (_spawn_particles draws w k)) = energy w /\
                    dt (fst (_spawn_particles draws w k)) = dt w).
    { unfold _spawn_particles, bind.
      destruct (spawn_count draws (energy w) k) as [c k1].
      destruct (spawn_loop draws (range_len c) (energy w) (particles w) k1)
        as [ps k2].
      split; reflexivity. }
    destruct Hsame as [-> ->].
    repeat split; try assumption; try lra.
    apply cap_ok. apply Forall_app. split; [assumption |].
    now apply inserted_ok.
  - destruct IH as (He & Hdt & Hps).
    unfold widget_ok. rewrite update_particles_survivors.
    unfold _update_particles; cbn [energy dt set_particles].
    repeat split; try assumption; try lra.
    apply survivors_ok; [lra | assumption].
Qed.

(** C2. One [_update_particles] call takes exactly [dt] off the life of
    every particle; a particle is left out of the result exactly when its
    new life is [<= 0], and then nothing but its life was changed; the
    result holds the kept particles and no others, so every particle in it
    has [life > 0].  In every state the program reaches (draws in [0,1))
    all particles have [life > 0]. *)
Theorem update_drops_dead (remaining : Z) (step : R) (w : FireWidget) :
  let body := body_of remaining step w in
  let after := particles (_update_particles remaining step w) in
  (forall p, life (fst (body p)) = life p - step) /\
  (forall p, snd (body p) = false <-> life p - step <= 0) /\
  (forall p, life p - step <= 0 ->
     fst (body p) =
     mkParticle (pos p) (vel p) (life p - step) (life0 p) (radius p) (seed p)) /\
  after =
    map (fun p => fst (body p))
      (filter (fun p => snd (body p)) (particles w)) /\
  (forall q, In q after <->
     exists p, In p (particles w) /\ 0 < life p - step /\ q = fst (body p)) /\
  Forall (fun q => 0 < life q) after /\
  (forall draws w0,
     (forall n, 0 <= draws n < 1) -> reachable draws w0 ->
     Forall (fun q => 0 < life q) (particles w0)).
Proof.
  cbv zeta. rewrite update_particles_survivors. unfold body_of.
  split; [intros p; apply update_body_life |].
  split; [intros p; apply update_body_dropped |].
  split; [intros p; apply update_body_dead |].
  split; [reflexivity |].
  split.
  - intros q. rewrite survivors_in. split.
    + intros (p & Hin & Hk & Hq). exists p.
      apply update_body_kept in Hk. auto.
    + intros (p & Hin & Hk & Hq). exists p.
      split; [exact Hin |]. split; [| exact Hq].
      apply update_body_kept. exact Hk.
  - split.
    + apply Forall_forall. intros q Hq. apply survivors_in in Hq.
      destruct Hq as (p & _ & Hk & ->).
      rewrite update_body_life. now apply update_body_kept in Hk.
    + intros draws w0 Hd Hr.
      destruct (reachable_ok draws w0 Hd Hr) as (_ & _ & Hps).
      eapply Forall_impl; [| exact Hps].
      intros q (_ & _ & Hq). lra.
Qed.

Lemma spawn_particles_fields (draws : nat -> R) (w : FireWidget) (k : nat) :
  energy (fst (_spawn_particles draws w k)) = energy w /\
  dt (fst (_spawn_particles draws w k)) = dt w.
Proof.
  unfold _spawn_particles, bind.
  destruct (spawn_count draws (energy w) k) as [c k1].
  destruct (spawn_loop draws (range_len c) (energy w) (particles w) k1)
    as [ps k2].
  split; reflexivity.
Qed.

Lemma inserted_kept (draws : nat -> R) (w : FireWidget) (k : nat) :
  0 <= energy w <= 1 ->
  particles (fst (_spawn_particles draws w k)) =
  skipn (length (particles w ++ inserted draws w k) - 2500) (particles w)
    ++ inserted draws w k.
Proof.
  intros He. rewrite spawn_particles_inserted. apply cap_keeps_tail.
  pose proof (inserted_bounds draws w k He). lia.
Qed.

Lemma inserted_head (draws : nat -> R) (w : FireWidget) (k : nat) :
  0 <= energy w <= 1 ->
  In (fst (new_particle draws (energy w) (S k)))
     (particles (fst (_spawn_particles draws w k))).
Proof.
  intros He. rewrite inserted_kept by exact He.
  apply in_or_app. right.
  pose proof (inserted_bounds draws w k He) as [[Hlo _] _].
  unfold inserted in *. rewrite spawned_length in Hlo.
  rewrite spawn_count_snd.
  destruct (range_len (fst (spawn_count draws (energy w) k))) as [| n];
    [lia |].
  cbn [spawned]. left. reflexivity.
Qed.

(** C8. In a state the program reaches (draws in [0,1)), a particle that
    [_update_particles], called with [self.dt], keeps has afterwards a
    radius at least as large as before and an age fraction
    [1 - life/life0] at least as large as before, which lies in [0,1];
    [self.dt] is positive. *)
Theorem survivor_radius_age
  (draws : nat -> R) (w : FireWidget) (remaining : Z) (p : FireParticle) :
  (forall n, 0 <= draws n < 1) ->
  reachable draws w ->
  In p (particles w) ->
  snd (body_of remaining (dt w) w p) = true ->
  let q := fst (body_of remaining (dt w) w p) in
  0 < dt w /\
  radius p <= radius q /\
  age01_of p = 1 - life p / life0 p /\
  age01_of q = 1 - life q / life0 q /\
  age01_of p <= age01_of q /\
  0 <= age01_of q <= 1.
Proof.
  intros Hd Hr Hin Hk q.
  destruct (reachable_ok draws w Hd Hr) as (He & Hdt & Hps).
  rewrite Forall_forall in Hps. destruct (Hps p Hin) as (Hrad & Hl0 & Hl).
  unfold body_of in q, Hk. apply update_body_kept in Hk.
  assert (Hs : 0 < dt w) by lra.
  assert (Hq_life : life q = life p - dt w) by apply update_body_life.
  assert (Hq_life0 : life0 q = life0 p) by apply update_body_life0.
  assert (Hq_rad : radius q = radius p * (1.0 + 0.25 * dt w))
    by (apply update_body_radius; exact Hk).
  assert (Hap : age01_of p = 1 - life p / life0 p)
    by (apply age01_of_spec; lra).
  assert (Haq : age01_of q = 1 - life q / life0 q)
    by (apply age01_of_spec; rewrite Hq_life0; lra).
  split; [exact Hs |]. split; [rewrite Hq_rad; nra |].
  split; [exact Hap |]. split; [exact Haq |].
  rewrite Hap, Haq, Hq_life, Hq_life0. unfold Rdiv.
  assert (Hi : 0 < / life0 p) by (apply Rinv_0_lt_compat; lra).
  assert (Hone : life0 p * / life0 p = 1) by (apply Rinv_r; lra).
  set (i := / life0 p) in *.
  repeat split; nra.
Qed.

Lemma survivor_radius_age_witness :
  let draws := fun _ : nat => 0 in
  let w := fst (_spawn_particles draws init_widget 0%nat) in
  let p := fst (new_particle draws (energy init_widget) 1%nat) in
  let q := fst (body_of 0 (dt w) w p) in
  0 < dt w /\
  radius p <= radius q /\
  age01_of p = 1 - life p / life0 p /\
  age01_of q = 1 - life q / life0 q /\
  age01_of p <= age01_of q /\
  0 <= age01_of q <= 1.
Proof.
  intros draws w p.
  assert (He : 0 <= energy init_widget <= 1) by (cbn [energy init_widget]; lra).
  apply (survivor_radius_age draws w 0 p).
  - intros n. unfold draws. lra.
  - apply reach_spawn, reach_init.
  - apply inserted_head. exact He.
  - unfold body_of. apply update_body_kept.
    destruct (new_particle_fields draws (energy init_widget) 1%nat)
      as (Hl & Hl0 & _).
    destruct (spawn_particles_fields draws init_widget 0%nat) as (_ & Hdt).
    fold p in Hl, Hl0. fold w in Hdt. rewrite Hl, Hl0, Hdt.
    unfold draws, _lerp. cbn [energy dt init_widget]. lra.
Defined.

(** ** Order of the collection *)

(** C9. The list is kept in insertion order: [_spawn_particles] puts the
    new particles after the old ones and the cap removes a prefix of that
    list and nothing else; [_update_particles] returns the kept particles in
    the order in which they stood in the list. *)
Theorem insertion_order_kept
  (draws : nat -> R) (w : FireWidget) (k : nat) (remaining : Z) (step : R) :
  let all := particles w ++ inserted draws w k in
  let body := body_of remaining step w in
  particles (fst (_spawn_particles draws w k)) = cap all /\
  all = firstn (length all - 2500) all ++ cap all /\
  ((length (inserted draws w k) <= 2500)%nat ->
     cap all = skipn (length all - 2500) (particles w) ++ inserted draws w k) /\
  particles (_update_particles remaining step w) =
    map (fun p => fst (body p))
      (filter (fun p => snd (body p)) (particles w)).
Proof.
  cbv zeta.
  split; [apply spawn_particles_inserted |].
  split; [apply cap_prefix |].
  split; [apply cap_keeps_tail |].
  apply update_particles_survivors.
Qed.

Lemma tick_particles (draws : nat -> R) (remaining : Z) (w : FireWidget)
  (k : nat) :
  particles (fst (tick draws remaining w k)) =
  survivors
    (body_of remaining (dt w) (fst (_spawn_particles draws w k)))
    (particles (fst (_spawn_particles draws w k))).
Proof.
  unfold tick, bind, ret.
  destruct (spawn_particles_fields draws w k) as (_ & Hdt).
  destruct (_spawn_particles draws w k) as [w1 k1]. cbn [fst] in *.
  rewrite update_particles_survivors, Hdt. reflexivity.
Qed.

Lemma survivors_all (body : FireParticle -> FireParticle * bool)
  (ps : list FireParticle) :
  Forall (fun p => snd (body p) = true) ps ->
  survivors body ps = map (fun p => fst (body p)) ps.
Proof.
  intros H. unfold survivors. f_equal.
  induction H as [| p ps Hp _ IH]; cbn [filter].
  - reflexivity.
  - rewrite Hp. now f_equal.
Qed.

(** C10. For an energy in [0,1], draws in [0,1) and the time step
    [self.dt = 1/120]: the base count [int(lerp(1.5, 10.0, energy))] is at
    least 1, so [_spawn_particles] inserts at least one particle, and none
    of the inserted particles is removed by the cap or by the
    [_update_particles] call of the same [tick]: after [tick] the
    collection is not empty. *)
Theorem tick_never_empty
  (draws : nat -> R) (w : FireWidget) (k : nat) (remaining : Z) :
  (forall n, 0 <= draws n < 1) ->
  0 <= energy w <= 1 ->
  dt w = 1 / 120 ->
  (1 <= py_int (_lerp 1.5 10.0 (energy w)))%Z /\
  (1 <= length (inserted draws w k))%nat /\
  particles (fst (_spawn_particles draws w k)) <> [] /\
  (exists older,
     particles (fst (tick draws remaining w k)) =
     older ++
     map (fun p =>
            fst (body_of remaining (dt w)
                   (fst (_spawn_particles draws w k)) p))
       (inserted draws w k)) /\
  particles (fst (tick draws remaining w k)) <> [].
Proof.
  intros Hd He Hdt.
  pose proof (inserted_bounds draws w k He) as [[Hlo Hhi] Hbase].
  pose proof (inserted_kept draws w k He) as Hsp.
  assert (Htick :
    exists older,
      particles (fst (tick draws remaining w k)) =
      older ++
      map (fun p =>
             fst (body_of remaining (dt w)
                    (fst (_spawn_particles draws w k)) p))
        (inserted draws w k)).
  { rewrite tick_particles, Hsp, survivors_app.
    eexists. f_equal. apply survivors_all.
    pose proof (inserted_fresh draws w k Hd He) as Hfr.
    eapply Forall_impl; [| exact Hfr].
    intros p Hl. unfold body_of. apply update_body_kept.
    rewrite Hdt. lra. }
  split; [exact Hbase |]. split; [exact Hlo |].
  split.
  - rewrite Hsp. intros Hnil. apply app_eq_nil in Hnil.
    destruct Hnil as [_ Hnil]. rewrite Hnil in Hlo. cbn in Hlo. lia.
  - split; [exact Htick |].
    destruct Htick as (older & ->). intros Hnil. apply app_eq_nil in Hnil.
    destruct Hnil as [_ Hnil]. apply map_eq_nil in Hnil.
    rewrite Hnil in Hlo. cbn in Hlo. lia.
Qed.

Lemma tick_never_empty_witness :
  particles (fst (tick (fun _ => 0) 0%Z init_widget 0%nat)) <> [].
Proof.
  apply (tick_never_empty (fun _ => 0) init_widget 0%nat 0%Z).
  - intros n. lra.
  - cbn [energy init_widget]. lra.
  - reflexivity.
Defined.

(** ** Draw order *)

Section SortedReverse.

Context {A : Type} (key : A -> R).

Lemma insert_desc_perm (x : A) (l : list A) :
  Permutation (x :: l) (insert_desc key x l).
Proof.
  induction l as [| y l IH]; cbn [insert_desc].
  - apply Permutation_refl.
  - destruct (Rlt_dec (key x) (key y)).
    + eapply perm_trans; [apply perm_swap |]. now apply perm_skip.
    + apply Permutation_refl.
Qed.

Lemma sorted_reverse_perm (l : list A) :
  Permutation l (sorted_reverse key l).
Proof.
  induction l as [| x l IH]; cbn [sorted_reverse fold_right].
  - apply perm_nil.
  - eapply perm_trans; [apply perm_skip, IH | apply insert_desc_perm].
Qed.

Lemma insert_desc_sorted (x : A) (l : list A) :
  StronglySorted (desc key) l -> StronglySorted (desc key) (insert_desc key x l).
Proof.
  induction l as [| y l IH]; intros Hs; cbn [insert_desc].
  - constructor; constructor.
  - apply StronglySorted_inv in Hs. destruct Hs as [Hs Hy].
    destruct (Rlt_dec (key x) (key y)) as [Hlt | Hge].
    + constructor; [apply IH, Hs |].
      apply Forall_forall. intros z Hz.
      apply (Permutation_in _ (Permutation_sym (insert_desc_perm x l))) in Hz.
      destruct Hz as [<- | Hz].
      * unfold desc. lra.
      * rewrite Forall_forall in Hy. now apply Hy.
    + constructor; [constructor; assumption |].
      constructor; [unfold desc; lra |].
      eapply Forall_impl; [| exact Hy].
      intros z Hz. unfold desc in *. lra.
Qed.

Lemma sorted_reverse_sorted (l : list A) :
  StronglySorted (desc key) (sorted_reverse key l).
Proof.
  induction l as [| x l IH]; cbn [sorted_reverse fold_right].
  - constructor.
  - apply insert_desc_sorted, IH.
Qed.

End SortedReverse.

Lemma depth_is_z (p : FireParticle) : depth p = vec_z (pos p).
Proof. unfold depth, dotProduct, cam_dir; cbn [vec_x vec_y vec_z]. lra. Qed.

Lemma strongly_sorted_weaken {A : Type} (R1 R2 : A -> A -> Prop) (l : list A) :
  (forall a b, R1 a b -> R2 a b) -> StronglySorted R1 l -> StronglySorted R2 l.
Proof.
  intros Himp H. induction H as [| a l Hs IH Ha]; constructor.
  - exact IH.
  - eapply Forall_impl; [| exact Ha]. intros b. apply Himp.
Qed.

Lemma cos_radians_pos (degrees : R) :
  -90 < degrees < 90 -> 0 < cos (radians degrees).
Proof.
  intros H. pose proof PI_RGT_0 as Hpi. unfold radians.
  apply cos_gt_0; nra.
Qed.

Lemma nearer_drawn_first (w : FireWidget) (p q : FireParticle) :
  -90 < rot_x w < 90 -> -90 < rot_y w < 90 ->
  vec_x (pos p) = vec_x (pos q) -> vec_y (pos p) = vec_y (pos q) ->
  vec_z (pos q) < vec_z (pos p) ->
  eye_distance w p < eye_distance w q /\
  sorted_reverse depth [q; p] = [p; q].
Proof.
  intros Hx Hy Ex Ey Hz. split.
  - unfold eye_distance, eye_z. rewrite Ex, Ey.
    pose proof (cos_radians_pos (rot_x w) Hx) as Ca.
    pose proof (cos_radians_pos (rot_y w) Hy) as Cb.
    pose proof (Rmult_lt_0_compat _ _ Ca Cb) as Cab.
    set (ca := cos (radians (rot_x w))) in *.
    set (cb := cos (radians (rot_y w))) in *.
    set (sa := sin (radians (rot_x w))).
    set (sb := sin (radians (rot_y w))).
    assert (Hd : 0 < ca * cb * (vec_z (pos p) - vec_z (pos q)))
      by (apply Rmult_lt_0_compat; lra).
    nra.
  - cbn [sorted_reverse fold_right insert_desc].
    rewrite !depth_is_z.
    destruct (Rlt_dec (vec_z (pos q)) (vec_z (pos p))); [reflexivity | lra].
Qed.

(** C4. What [paintGL] does where the claim asks for farthest first.  Every
    particle is drawn once, but the sort key is the [z] coordinate of the
    position, the same whatever the camera angles, and the order is
    descending in it.  With the camera as the program starts and two
    particles above the burner at [z = -0.2] and [z = 0.2], the particle at
    [z = 0.2] is drawn first although it is the nearer one to the eye:
    front to back, where line 142 announces back to front.  The same with
    the camera turned back to angles 0: the particle at [z = 1], 4 in front
    of the eye, is drawn before the one at [z = -1], 6 in front of it. *)
Theorem paint_nearest_first :
  let far := mkParticle (mkVec 0 (-1) (-0.2)) (mkVec 0 1 0) 0.7 0.7 0.05 0 in
  let near := mkParticle (mkVec 0 (-1) 0.2) (mkVec 0 1 0) 0.7 0.7 0.05 0 in
  let w := set_particles init_widget [far; near] in
  (forall p, depth p = vec_z (pos p)) /\
  parts_sorted w = [near; far] /\
  map (fun s => (sph_x s, sph_y s, sph_z s)) (paintGL w)
  = [(0, -1, 0.2); (0, -1, -0.2)] /\
  eye_distance w near < eye_distance w far /\
  (let back := mkParticle (mkVec 0 0 (-1)) (mkVec 0 1 0) 0.7 0.7 0.05 0 in
   let front := mkParticle (mkVec 0 0 1) (mkVec 0 1 0) 0.7 0.7 0.05 0 in
   let w0 :=
     mouseMoveEvent (-70) (-36) (set_particles init_widget [back; front]) in
   rot_x w0 = 0 /\ rot_y w0 = 0 /\
   parts_sorted w0 = [front; back] /\
   eye_distance w0 front = 4 /\ eye_distance w0 back = 6) /\
  (forall (v : FireWidget) (rx ry : R),
     paintGL (mkWidget (particles v) (energy v) rx ry (dt v)) = paintGL v) /\
  (forall v : FireWidget,
     Permutation (particles v) (parts_sorted v) /\
     length (paintGL v) = length (particles v) /\
     StronglySorted (fun p q => vec_z (pos q) <= vec_z (pos p))
       (parts_sorted v)).
Proof.
  intros far near w.
  assert (Hn : eye_distance w near < eye_distance w far /\
               sorted_reverse depth [far; near] = [near; far]).
  { apply nearer_drawn_first.
    - unfold w. cbn [rot_x set_particles init_widget]. lra.
    - unfold w. cbn [rot_y set_particles init_widget]. lra.
    - reflexivity.
    - reflexivity.
    - unfold near, far. cbn [pos vec_z]. lra. }
  destruct Hn as [Hdist Hsort].
  assert (Hparts : parts_sorted w = [near; far]) by exact Hsort.
  split; [exact depth_is_z |]. split; [exact Hparts |].
  split; [unfold paintGL; rewrite Hparts; reflexivity |].
  split; [exact Hdist |].
  split.
  { intros back front w0.
    assert (Hx : rot_x w0 = 0)
      by (unfold w0; cbn [rot_x mouseMoveEvent set_particles init_widget];
          lra).
    assert (Hy : rot_y w0 = 0)
      by (unfold w0; cbn [rot_y mouseMoveEvent set_particles init_widget];
          lra).
    split; [exact Hx |]. split; [exact Hy |]. split.
    - unfold parts_sorted, w0.
      cbn [particles mouseMoveEvent set_particles sorted_reverse fold_right
             insert_desc].
      rewrite !depth_is_z. unfold back, front. cbn [pos vec_z].
      destruct (Rlt_dec (-1) 1); [reflexivity | lra].
    - unfold eye_distance, eye_z. rewrite Hx, Hy. unfold radians.
      replace (0 * PI / 180) with 0 by lra.
      rewrite sin_0, cos_0. unfold back, front.
      cbn [pos vec_x vec_y vec_z]. split; lra. }
  split; [reflexivity |].
  intros v.
  assert (Hperm : Permutation (particles v) (parts_sorted v))
    by apply sorted_reverse_perm.
  split; [exact Hperm |]. split.
  - unfold paintGL. rewrite length_map. symmetry.
    apply Permutation_length, Hperm.
  - apply (strongly_sorted_weaken (desc depth)).
    + intros a b. unfold desc. rewrite !depth_is_z. tauto.
    + apply sorted_reverse_sorted.
Qed.

(** ** Clamping *)

Lemma reachable_energy_dt (draws : nat -> R) (w : FireWidget) :
  reachable draws w -> 0 <= energy w <= 1 /\ dt w = 1 / 120.
Proof.
  intros Hr. induction Hr as [| w v Hr IH Hv | w dx dy Hr IH | w k Hr IH
                             | w remaining Hr IH].
  - cbn [energy dt init_widget]. lra.
  - destruct IH as [_ Hdt]. cbn [energy dt on_energy_changed].
    destruct Hv as [Hv0 Hv1]. apply IZR_le in Hv0. apply IZR_le in Hv1.
    split; [lra | exact Hdt].
  - exact IH.
  - destruct (spawn_particles_fields draws w k) as [-> ->]. exact IH.
  - exact IH.
Qed.



(** * Further properties of the code *)

(** Numeric bounds below are stated with a margin, so that they also hold
    of the values the program computes in floating point and stores in the
    single-precision [QVector3D]. *)

(** ** Colour mapping *)

Lemma color_eta (c : Color) : c = (chan0 c, chan1 c, chan2 c).
Proof. destruct c as [[r g] b]. reflexivity. Qed.

(** X1. [_lerp_color] clamps its factor: a factor at or below 0 returns
    the first colour, and a factor at or above 1 gives what factor 1
    gives. *)
Theorem lerp_color_saturates (c0 c1 : Color) (t : R) :
  (t <= 0 -> _lerp_color c0 c1 t = c0) /\
  (1 <= t -> _lerp_color c0 c1 t = _lerp_color c0 c1 1) /\
  _lerp_color c0 c1 t = _lerp_color c0 c1 (_clamp01 t).
Proof.
  split; [| split].
  - intros Ht. destruct c0 as [[r0 g0] b0]. destruct c1 as [[r1 g1] b1].
    unfold _lerp_color, _lerp. rewrite (clamp01_below t Ht).
    unfold chan0, chan1, chan2; cbn [fst snd].
    f_equal; [f_equal |]; lra.
  - intros Ht. unfold _lerp_color.
    rewrite (clamp01_above t Ht), (clamp01_above 1) by lra. reflexivity.
  - unfold _lerp_color. now rewrite clamp01_idem.
Qed.

Lemma lerp_lit (a b t : R) :
  0.05 <= a <= 1 -> 0.05 <= b <= 1 -> 0 <= t <= 1 -> 0.05 <= _lerp a b t <= 1.
Proof. unfold _lerp. intros Ha Hb Ht. split; nra. Qed.

Lemma lerp_color_lit (c0 c1 : Color) (t : R) :
  lit_color c0 -> lit_color c1 -> lit_color (_lerp_color c0 c1 t).
Proof.
  intros (H0 & H1 & H2) (K0 & K1 & K2).
  pose proof (clamp01_range t) as Ht.
  unfold lit_color, _lerp_color, chan0, chan1, chan2; cbn [fst snd].
  repeat split; apply lerp_lit; assumption.
Qed.

Lemma palette_lit :
  lit_color low_hot /\ lit_color low_mid /\ lit_color low_tip /\
  lit_color high_hot /\ lit_color high_mid /\ lit_color high_tip.
Proof.
  unfold lit_color, low_hot, low_mid, low_tip, high_hot, high_mid, high_tip,
    chan0, chan1, chan2; cbn [fst snd].
  repeat split; lra.
Qed.

Lemma fire_color_floor (e a : R) :
  0.0125 <= chan0 (_fire_color e a) /\
  0.0125 <= chan1 (_fire_color e a) /\
  0.0125 <= chan2 (_fire_color e a).
Proof.
  destruct palette_lit as (P1 & P2 & P3 & P4 & P5 & P6).
  unfold _fire_color.
  set (rgb := if Rlt_dec (_clamp01 a) 0.5 then _ else _).
  assert (Hrgb : lit_color rgb).
  { unfold rgb. destruct (Rlt_dec (_clamp01 a) 0.5);
      apply lerp_color_lit; apply lerp_color_lit; assumption. }
  pose proof (py_pow_unit (_clamp01 a) 1.6 (clamp01_range a)) as Hp.
  destruct Hrgb as (H0 & H1 & H2).
  unfold scale_color, chan0, chan1, chan2 in *; cbn [fst snd] in *.
  repeat split; nra.
Qed.

Lemma fire_color_ceiling (e a : R) : unit_color (_fire_color e a).
Proof.
  destruct palette_unit as (P1 & P2 & P3 & P4 & P5 & P6).
  unfold _fire_color. apply scale_color_unit.
  - destruct (Rlt_dec (_clamp01 a) 0.5);
      apply lerp_color_unit; apply lerp_color_unit; assumption.
  - pose proof (py_pow_unit (_clamp01 a) 1.6 (clamp01_range a)) as Hp.
    lra.
Qed.

(** X2. [_fire_color] never returns black: at every energy and age each
    component is at least 0.0125, the smallest palette entry 0.05 under the
    strongest fade 0.25. *)
Theorem fire_color_never_black (e a : R) :
  0.0125 <= chan0 (_fire_color e a) /\
  0.0125 <= chan1 (_fire_color e a) /\
  0.0125 <= chan2 (_fire_color e a).
Proof.
  destruct palette_lit as (P1 & P2 & P3 & P4 & P5 & P6).
  unfold _fire_color.
  set (rgb := if Rlt_dec (_clamp01 a) 0.5 then _ else _).
  assert (Hrgb : lit_color rgb).
  { unfold rgb. destruct (Rlt_dec (_clamp01 a) 0.5);
      apply lerp_color_lit; apply lerp_color_lit; assumption. }
  pose proof (py_pow_unit (_clamp01 a) 1.6 (clamp01_range a)) as Hp.
  destruct Hrgb as (H0 & H1 & H2).
  unfold scale_color, chan0, chan1, chan2 in *; cbn [fst snd] in *.
  repeat split; nra.
Qed.

(** ** Spawning *)

Lemma new_particle_motion (draws : nat -> R) (e : R) (k : nat) :
  let p := fst (new_particle draws e k) in
  let r := 0.18 + 0.10 * (1.0 - e) in
  let rad := py_pow (draws (k + 1)%nat) 0.6 * r in
  let base_up := _lerp 0.9 2.4 e in
  let side := _lerp 0.45 0.9 e in
  pos p = mkVec (cos (draws k * tau) * rad)
                (-1.0 + (0.0 + (0.05 - 0.0) * draws (k + 2)%nat))
                (sin (draws k * tau) * rad) /\
  vel p = mkVec (- side + (side - - side) * draws (k + 4)%nat)
                (base_up * 0.6
                 + (base_up * 1.1 - base_up * 0.6) * draws (k + 3)%nat)
                (- side + (side - - side) * draws (k + 5)%nat) /\
  seed p = draws (k + 8)%nat * 9999.0.
Proof.
  unfold new_particle, uniform, bind, random, ret.
  cbn [fst snd pos vel seed].
  replace (k + 1)%nat with (S k) by lia.
  replace (k + 2)%nat with (S (S k)) by lia.
  replace (k + 3)%nat with (S (S (S k))) by lia.
  replace (k + 4)%nat with (S (S (S (S k)))) by lia.
  replace (k + 5)%nat with (S (S (S (S (S k))))) by lia.
  replace (k + 8)%nat with (S (S (S (S (S (S (S (S k)))))))) by lia.
  repeat split; reflexivity.
Qed.

Lemma spawned_forall (draws : nat -> R) (P : FireParticle -> Prop)
  (n : nat) (e : R) (k : nat) :
  (forall i, P (fst (new_particle draws e i))) ->
  Forall P (spawned draws n e k).
Proof.
  intros HP. revert k. induction n as [| n IH]; intros k; cbn [spawned].
  - constructor.
  - constructor; [apply HP | apply IH].
Qed.

Lemma circle_point (theta rad r : R) :
  0 <= rad <= r ->
  (cos theta * rad) * (cos theta * rad) + (sin theta * rad) * (sin theta * rad)
  <= r * r.
Proof.
  intros Hr.
  pose proof (sin2_cos2 theta) as H. unfold Rsqr in H.
  replace ((cos theta * rad) * (cos theta * rad)
           + (sin theta * rad) * (sin theta * rad))
    with ((sin theta * sin theta + cos theta * cos theta) * (rad * rad))
    by ring.
  rewrite H. nra.
Qed.

(** X3. For an energy in [0,1] and draws in [0,1), every particle a
    [_spawn_particles] call inserts starts at a height between -1 and
    -0.949 and, up to 0.001, within [0.18 + 0.10 * (1 - energy)], at most
    0.28, of the vertical axis: well inside the circle of the burner disk
    drawn by [_draw_burner]. *)
Theorem spawn_above_burner (draws : nat -> R) (w : FireWidget) (k : nat) :
  (forall n, 0 <= draws n < 1) ->
  0 <= energy w <= 1 ->
  Forall
    (fun p =>
       let x := vec_x (pos p) in
       let y := vec_y (pos p) in
       let z := vec_z (pos p) in
       let r := 0.18 + 0.10 * (1.0 - energy w) in
       -1 <= y <= -0.949 /\
       x * x + z * z <= (r + 0.001) * (r + 0.001) /\
       r <= 0.28 /\
       forall i : nat,
         x * x + z * z + 0.04
         < fst (fst (burner_rim i)) * fst (fst (burner_rim i))
           + snd (burner_rim i) * snd (burner_rim i))
    (inserted draws w k).
Proof.
  intros Hd He. unfold inserted. apply spawned_forall. intros i.
  destruct (new_particle_motion draws (energy w) i) as (Hpos & _ & _).
  cbv zeta in Hpos |- *. rewrite Hpos. cbn [vec_x vec_y vec_z].
  pose proof (Hd (i + 1)%nat) as H1. pose proof (Hd (i + 2)%nat) as H2.
  pose proof (py_pow_unit (draws (i + 1)%nat) 0.6) as Hp.
  assert (Hpw : 0 <= py_pow (draws (i + 1)%nat) 0.6 <= 1) by (apply Hp; lra).
  set (pw := py_pow (draws (i + 1)%nat) 0.6) in *.
  set (r := 0.18 + 0.10 * (1.0 - energy w)).
  assert (Hr : 0.18 <= r <= 0.28) by (unfold r; lra).
  assert (Hdisk :
    (cos (draws i * tau) * (pw * r)) * (cos (draws i * tau) * (pw * r))
    + (sin (draws i * tau) * (pw * r)) * (sin (draws i * tau) * (pw * r))
    <= r * r) by (apply circle_point; nra).
  split; [lra |]. split; [nra |]. split; [lra |].
  intros j. unfold burner_rim; cbn [fst snd].
  pose proof (sin2_cos2 (INR j / 40.0 * tau)) as Hc. unfold Rsqr in Hc.
  replace (cos (INR j / 40.0 * tau) * 0.35 * (cos (INR j / 40.0 * tau) * 0.35)
           + sin (INR j / 40.0 * tau) * 0.35 * (sin (INR j / 40.0 * tau) * 0.35))
    with ((sin (INR j / 40.0 * tau) * sin (INR j / 40.0 * tau)
           + cos (INR j / 40.0 * tau) * cos (INR j / 40.0 * tau))
          * (0.35 * 0.35)) by ring.
  rewrite Hc. nra.
Qed.

Lemma spawn_above_burner_witness :
  Forall
    (fun p =>
       let x := vec_x (pos p) in
       let y := vec_y (pos p) in
       let z := vec_z (pos p) in
       let r := 0.18 + 0.10 * (1.0 - energy init_widget) in
       -1 <= y <= -0.949 /\
       x * x + z * z <= (r + 0.001) * (r + 0.001) /\
       r <= 0.28 /\
       forall i : nat,
         x * x + z * z + 0.04
         < fst (fst (burner_rim i)) * fst (fst (burner_rim i))
           + snd (burner_rim i) * snd (burner_rim i))
    (inserted (fun _ => 0) init_widget 0).
Proof.
  apply (spawn_above_burner (fun _ => 0) init_widget 0).
  - intros n. lra.
  - cbn [energy init_widget]. lra.
Defined.

(** X4. For an energy in [0,1] and draws in [0,1), every inserted particle
    starts, up to 0.001, with an upward speed in [0.6, 1.1] times
    [lerp(0.9, 2.4, energy)], so between 0.539 and 2.641, with sideways
    speeds within [lerp(0.45, 0.9, energy)], at most 0.9, and with a seed
    between 0 and 9999. *)
Theorem spawn_velocity_range (draws : nat -> R) (w : FireWidget) (k : nat) :
  (forall n, 0 <= draws n < 1) ->
  0 <= energy w <= 1 ->
  Forall
    (fun p =>
       let base_up := _lerp 0.9 2.4 (energy w) in
       let side := _lerp 0.45 0.9 (energy w) in
       base_up * 0.6 - 0.001 <= vec_y (vel p) <= base_up * 1.1 + 0.001 /\
       0.539 <= vec_y (vel p) <= 2.641 /\
       - side - 0.001 <= vec_x (vel p) <= side + 0.001 /\
       - side - 0.001 <= vec_z (vel p) <= side + 0.001 /\
       side <= 0.9 /\
       0 <= seed p <= 9999)
    (inserted draws w k).
Proof.
  intros Hd He. unfold inserted. apply spawned_forall. intros i.
  destruct (new_particle_motion draws (energy w) i) as (_ & Hvel & Hseed).
  cbv zeta in Hvel, Hseed |- *. rewrite Hvel, Hseed. cbn [vec_x vec_y vec_z].
  pose proof (Hd (i + 3)%nat) as H3. pose proof (Hd (i + 4)%nat) as H4.
  pose proof (Hd (i + 5)%nat) as H5. pose proof (Hd (i + 8)%nat) as H8.
  unfold _lerp. repeat split; nra.
Qed.

Lemma spawn_velocity_range_witness :
  Forall
    (fun p =>
       let base_up := _lerp 0.9 2.4 (energy init_widget) in
       let side := _lerp 0.45 0.9 (energy init_widget) in
       base_up * 0.6 - 0.001 <= vec_y (vel p) <= base_up * 1.1 + 0.001 /\
       0.539 <= vec_y (vel p) <= 2.641 /\
       - side - 0.001 <= vec_x (vel p) <= side + 0.001 /\
       - side - 0.001 <= vec_z (vel p) <= side + 0.001 /\
       side <= 0.9 /\
       0 <= seed p <= 9999)
    (inserted (fun _ => 0) init_widget 0).
Proof.
  apply (spawn_velocity_range (fun _ => 0) init_widget 0).
  - intros n. lra.
  - cbn [energy init_widget]. lra.
Defined.

(** X5. With the same random draw (in [0,1)), a higher energy never spawns
    fewer particles: for energies [0 <= e1 <= e2] the call at [e2] inserts
    at least as many particles as the call at [e1]. *)
Theorem spawn_count_monotone
  (draws : nat -> R) (w1 w2 : FireWidget) (k : nat) :
  0 <= draws k < 1 ->
  0 <= energy w1 <= energy w2 ->
  (length (inserted draws w1 k) <= length (inserted draws w2 k))%nat.
Proof.
  intros Hu He. unfold inserted. rewrite !spawned_length, !spawn_count_fst.
  set (r1 := _lerp 1.5 10.0 (energy w1)).
  set (r2 := _lerp 1.5 10.0 (energy w2)).
  assert (Hr : 0 <= r1 <= r2) by (unfold r1, r2, _lerp; lra).
  rewrite !py_int_floor by lra.
  pose proof (Zfloor_bound r1) as B1. pose proof (Zfloor_bound r2) as B2.
  assert (Hfl : (Zfloor r1 <= Zfloor r2)%Z) by (apply Zfloor_le; lra).
  assert (H0 : (0 <= Zfloor r1)%Z) by (apply Zfloor_lub; lra).
  unfold range_len.
  destruct (Rlt_dec (draws k) (r1 - IZR (Zfloor r1))) as [L1 | L1];
    destruct (Rlt_dec (draws k) (r2 - IZR (Zfloor r2))) as [L2 | L2];
    try lia.
  destruct (Z.eq_dec (Zfloor r1) (Zfloor r2)) as [E | E]; [| lia].
  rewrite E in L1. lra.
Qed.

Lemma spawn_count_monotone_witness :
  (length (inserted (fun _ => 0%R) init_widget 0)
   <= length (inserted (fun _ => 0%R) (on_energy_changed 100 init_widget) 0))%nat.
Proof.
  apply (spawn_count_monotone
           (fun _ => 0) init_widget (on_energy_changed 100 init_widget) 0).
  - lra.
  - cbn [energy init_widget on_energy_changed]. lra.
Defined.

(** X6. At an energy of -3/17 or less the rate [lerp(1.5, 10.0, energy)] is
    not positive: [int] truncates it to a count [<= 0], no draw in [0,1) is
    below the remainder, [range(count)] is empty and the call inserts
    nothing; the collection is only capped. *)
Theorem spawn_nothing_below_zero_rate
  (draws : nat -> R) (w : FireWidget) (k : nat) :
  0 <= draws k ->
  energy w <= - 3 / 17 ->
  inserted draws w k = [] /\
  particles (fst (_spawn_particles draws w k)) = cap (particles w).
Proof.
  intros Hu He.
  assert (Hins : inserted draws w k = []).
  { apply length_zero_iff_nil. unfold inserted.
    rewrite spawned_length, spawn_count_fst.
    set (r := _lerp 1.5 10.0 (energy w)).
    assert (Hr : r <= 0) by (unfold r, _lerp; lra).
    assert (Hi : (py_int r <= 0)%Z /\ r - IZR (py_int r) <= 0).
    { unfold py_int. destruct (Rle_dec 0 r) as [Hp | Hn].
      - assert (Hz : Zfloor r = 0%Z) by (apply Zfloor_eq; lra).
        rewrite Hz. split; [lia | lra].
      - pose proof (Zceil_bound r) as B. split; [| lra].
        apply Z.lt_succ_r. apply lt_IZR. rewrite succ_IZR. lra. }
    destruct Hi as [Hi Hf]. unfold range_len.
    destruct (Rlt_dec (draws k) (r - IZR (py_int r))); [lra | lia]. }
  split; [exact Hins |].
  rewrite spawn_particles_inserted, Hins, app_nil_r. reflexivity.
Qed.

Lemma spawn_nothing_below_zero_rate_witness :
  inserted (fun _ => 0) (mkWidget [] (-1) 18 35 (1 / 120)) 0 = [] /\
  particles (fst (_spawn_particles (fun _ => 0)
                    (mkWidget [] (-1) 18 35 (1 / 120)) 0%nat))
  = cap (particles (mkWidget [] (-1) 18 35 (1 / 120))).
Proof.
  apply (spawn_nothing_below_zero_rate
           (fun _ => 0) (mkWidget [] (-1) 18 35 (1 / 120)) 0).
  - lra.
  - cbn [energy]. lra.
Defined.

Lemma spawn_loop_cursor (draws : nat -> R) (n : nat) (e : R)
  (ps : list FireParticle) (k : nat) :
  snd (spawn_loop draws n e ps k) = (k + 9 * n)%nat.
Proof.
  revert ps k. induction n as [| n IH]; intros ps k.
  - cbn. lia.
  - cbn [spawn_loop]. unfold bind at 1.
    destruct (new_particle_fields draws e k) as (_ & _ & _ & Hk).
    destruct (new_particle draws e k) as [p k'] eqn:Hp. cbn [snd] in Hk.
    rewrite IH, Hk. lia.
Qed.

(** X7. A [_spawn_particles] call makes one [random.random()] call for the
    count and nine for each particle it builds: started at draw [k] it
    leaves the sequence at [k + 1 + 9 * n], [n] the number of particles
    inserted, and so does [tick]. *)
Theorem spawn_draws_consumed
  (draws : nat -> R) (w : FireWidget) (k : nat) (remaining : Z) :
  snd (_spawn_particles draws w k)
  = (k + 1 + 9 * length (inserted draws w k))%nat /\
  snd (tick draws remaining w k)
  = (k + 1 + 9 * length (inserted draws w k))%nat.
Proof.
  assert (Hs : snd (_spawn_particles draws w k)
               = (k + 1 + 9 * length (inserted draws w k))%nat).
  { unfold inserted. rewrite spawned_length.
    unfold _spawn_particles. unfold bind at 1.
    destruct (spawn_count draws (energy w) k) as [count k1] eqn:Hc.
    assert (Hk1 : k1 = S k).
    { pose proof (spawn_count_snd draws (energy w) k) as H.
      rewrite Hc in H. exact H. }
    cbn [fst snd]. unfold bind.
    pose proof (spawn_loop_cursor draws (range_len count) (energy w)
                  (particles w) k1) as Hl.
    destruct (spawn_loop draws (range_len count) (energy w) (particles w) k1)
      as [ps k2].
    unfold ret. cbn [fst snd] in *. lia. }
  split; [exact Hs |].
  rewrite <- Hs. unfold tick, bind, ret.
  destruct (_spawn_particles draws w k) as [w1 k1]. reflexivity.
Qed.

(** ** Motion and size of the particles *)

Lemma update_body_motion (buoyancy swirl damping t step : R) (p : FireParticle) :
  0 < life p - step ->
  let q := fst (update_body buoyancy swirl damping t step p) in
  vec_y (vel q) = (vec_y (vel p) + buoyancy * step) * damping /\
  vec_y (pos q) = vec_y (pos p) + vec_y (vel q) * step /\
  seed q = seed p.
Proof.
  intros Hk. unfold update_body.
  destruct (Rle_dec (life p - step) 0); [lra |].
  cbn [fst vel pos seed vec_y]. repeat split; reflexivity.
Qed.

Lemma update_body_rising (buoyancy swirl damping t step : R) (p : FireParticle) :
  0 < buoyancy -> 0 < damping -> 0 < step ->
  particle_rising p -> 0 < life p - step ->
  let q := fst (update_body buoyancy swirl damping t step p) in
  particle_rising q /\ vec_y (pos p) < vec_y (pos q).
Proof.
  intros Hb Hd Hs (Hv & Hy) Hk q.
  destruct (update_body_motion buoyancy swirl damping t step p Hk)
    as (Hvq & Hyq & _).
  cbv zeta in Hvq, Hyq. fold q in Hvq, Hyq.
  assert (Hbs : 0 < buoyancy * step) by (apply Rmult_lt_0_compat; lra).
  assert (Hpos : 0 < vec_y (vel q)).
  { rewrite Hvq. apply Rmult_lt_0_compat; lra. }
  assert (Hup : 0 < vec_y (vel q) * step) by (apply Rmult_lt_0_compat; lra).
  unfold particle_rising. rewrite Hyq. repeat split; lra.
Qed.

Lemma new_particle_rising (draws : nat -> R) (e : R) (k : nat) :
  (forall n, 0 <= draws n < 1) -> 0 <= e <= 1 ->
  particle_rising (fst (new_particle draws e k)).
Proof.
  intros Hd He.
  destruct (new_particle_motion draws e k) as (Hpos & Hvel & _).
  cbv zeta in Hpos, Hvel. unfold particle_rising. rewrite Hpos, Hvel.
  cbn [vec_y].
  pose proof (Hd (k + 2)%nat) as H2. pose proof (Hd (k + 3)%nat) as H3.
  unfold _lerp. split; nra.
Qed.

Lemma cap_forall (P : FireParticle -> Prop) (ps : list FireParticle) :
  Forall P ps -> Forall P (cap ps).
Proof.
  intros H. rewrite (cap_prefix ps) in H. now apply Forall_app in H.
Qed.

Lemma reachable_rising (draws : nat -> R) (w : FireWidget) :
  (forall n, 0 <= draws n < 1) -> reachable draws w ->
  Forall particle_rising (particles w).
Proof.
  intros Hd Hr. induction Hr as [| w v Hr IH Hv | w dx dy Hr IH | w k Hr IH
                                | w remaining Hr IH].
  - constructor.
  - exact IH.
  - exact IH.
  - destruct (reachable_energy_dt draws w Hr) as (He & _).
    rewrite spawn_particles_inserted. apply cap_forall, Forall_app.
    split; [exact IH |]. unfold inserted. apply spawned_forall.
    intros i. now apply new_particle_rising.
  - destruct (reachable_energy_dt draws w Hr) as (He & Hdt).
    rewrite update_particles_survivors. apply Forall_forall. intros q Hq.
    apply survivors_in in Hq. destruct Hq as (p & Hin & Hk & ->).
    unfold body_of in *. apply update_body_kept in Hk.
    rewrite Forall_forall in IH.
    apply update_body_rising; try (unfold _lerp; nra); try lra.
    now apply IH.
Qed.

(** X8. Particles only ever rise: in every state the program reaches
    (draws in [0,1)) each particle has a positive upward velocity and a
    height of at least -1, the burner plane, and a particle that
    [_update_particles] keeps leaves the call strictly higher than it
    entered it, still moving upward. *)
Theorem particles_rise
  (draws : nat -> R) (w : FireWidget) (remaining : Z) (p : FireParticle) :
  (forall n, 0 <= draws n < 1) ->
  reachable draws w ->
  In p (particles w) ->
  0 < vec_y (vel p) /\
  -1 <= vec_y (pos p) /\
  (snd (body_of remaining (dt w) w p) = true ->
   let q := fst (body_of remaining (dt w) w p) in
   0 < vec_y (vel q) /\ vec_y (pos p) < vec_y (pos q)).
Proof.
  intros Hd Hr Hin.
  pose proof (reachable_rising draws w Hd Hr) as Hall.
  rewrite Forall_forall in Hall. pose proof (Hall p Hin) as Hp.
  destruct (reachable_energy_dt draws w Hr) as (He & Hdt).
  split; [apply Hp |]. split; [apply Hp |].
  intros Hk q. unfold body_of in *. apply update_body_kept in Hk.
  assert (Hq : particle_rising q /\ vec_y (pos p) < vec_y (pos q)).
  { apply update_body_rising; try (unfold _lerp; nra); try lra. exact Hp. }
  destruct Hq as ((Hv & _) & Hy). split; assumption.
Qed.

Lemma particles_rise_witness :
  let draws := fun _ : nat => 0 in
  let w := fst (_spawn_particles draws init_widget 0%nat) in
  let p := fst (new_particle draws (energy init_widget) 1%nat) in
  0 < vec_y (vel p) /\
  -1 <= vec_y (pos p) /\
  (snd (body_of 0 (dt w) w p) = true ->
   let q := fst (body_of 0 (dt w) w p) in
   0 < vec_y (vel q) /\ vec_y (pos p) < vec_y (pos q)).
Proof.
  intros draws w p.
  apply (particles_rise draws w 0 p).
  - intros n. unfold draws. lra.
  - apply reach_spawn, reach_init.
  - apply inserted_head. cbn [energy init_widget]. lra.
Defined.

Lemma exp_small (x : R) : 0 <= x < 1 -> exp x * (1 - x) <= 1.
Proof.
  intros Hx.
  pose proof (exp_ineq1_le (- x)) as H. rewrite exp_Ropp in H.
  pose proof (exp_pos x) as Hp.
  apply (Rmult_le_compat_l (exp x)) in H; [| lra].
  rewrite Rinv_r in H by lra. lra.
Qed.

Lemma new_particle_radius_bounded (draws : nat -> R) (e : R) (k : nat) :
  (forall n, 0 <= draws n < 1) -> 0 <= e <= 1 ->
  radius_bounded (fst (new_particle draws e k)).
Proof.
  intros Hd He.
  destruct (new_particle_fields draws e k) as (Hl & _ & Hr & _).
  cbv zeta in Hl, Hr. unfold radius_bounded. rewrite Hl, Hr.
  replace (0.25 * (life0 (fst (new_particle draws e k))
                   - life0 (fst (new_particle draws e k)))) with 0 by ring.
  rewrite exp_0. pose proof (Hd (k + 7)%nat) as H7.
  unfold _lerp. split; nra.
Qed.

Lemma update_body_radius_bounded
  (buoyancy swirl damping t step : R) (p : FireParticle) :
  0 < step -> radius_bounded p -> 0 < life p - step ->
  radius_bounded (fst (update_body buoyancy swirl damping t step p)).
Proof.
  intros Hs (Hlo & Hhi) Hk. unfold radius_bounded.
  rewrite update_body_life, update_body_life0, update_body_radius by exact Hk.
  replace (0.25 * (life0 p - (life p - step)))
    with (0.25 * (life0 p - life p) + 0.25 * step) by ring.
  rewrite exp_plus.
  pose proof (exp_ineq1_le (0.25 * step)) as He.
  pose proof (exp_pos (0.25 * (life0 p - life p))) as Hp.
  split; [nra |].
  apply Rle_trans with
    (0.07 * exp (0.25 * (life0 p - life p)) * (1.0 + 0.25 * step)).
  - apply Rmult_le_compat_r; lra.
  - rewrite Rmult_assoc. apply Rmult_le_compat_l; [lra |].
    apply Rmult_le_compat_l; lra.
Qed.

Lemma reachable_radius_bounded (draws : nat -> R) (w : FireWidget) :
  (forall n, 0 <= draws n < 1) -> reachable draws w ->
  Forall radius_bounded (particles w).
Proof.
  intros Hd Hr. induction Hr as [| w v Hr IH Hv | w dx dy Hr IH | w k Hr IH
                                | w remaining Hr IH].
  - constructor.
  - exact IH.
  - exact IH.
  - destruct (reachable_energy_dt draws w Hr) as (He & _).
    rewrite spawn_particles_inserted. apply cap_forall, Forall_app.
    split; [exact IH |]. unfold inserted. apply spawned_forall.
    intros i. now apply new_particle_radius_bounded.
  - destruct (reachable_energy_dt draws w Hr) as (He & Hdt).
    rewrite update_particles_survivors. apply Forall_forall. intros q Hq.
    apply survivors_in in Hq. destruct Hq as (p & Hin & Hk & ->).
    unfold body_of in *. apply update_body_kept in Hk.
    rewrite Forall_forall in IH.
    apply update_body_radius_bounded; [lra | now apply IH | exact Hk].
Qed.

Lemma reachable_radius_range (draws : nat -> R) (w : FireWidget) :
  (forall n, 0 <= draws n < 1) ->
  reachable draws w ->
  Forall (fun p => 0.03 <= radius p < 0.102) (particles w).
Proof.
  intros Hd Hr.
  pose proof (reachable_radius_bounded draws w Hd Hr) as Hb.
  destruct (reachable_ok draws w Hd Hr) as (_ & _ & Hok).
  rewrite Forall_forall in *. intros p Hin.
  destruct (Hb p Hin) as (Hlo & Hhi).
  destruct (Hok p Hin) as (_ & Hl0 & Hl).
  split; [exact Hlo |].
  set (x := 0.25 * (life0 p - life p)) in *.
  assert (Hx : 0 <= x < 0.3125) by (unfold x; lra).
  pose proof (exp_small x) as He. pose proof (exp_pos x) as Hp.
  assert (He' : exp x * (1 - x) <= 1) by (apply He; lra).
  assert (Hex : exp x < 1.455) by nra.
  lra.
Qed.

(** X9. The radius of a particle stays small: in every state the program
    reaches (draws in [0,1)) each particle has a radius of at least 0.03 and
    below 0.102, since it starts in [0.03, 0.07] and grows by the factor
    [1 + 0.25 * dt] only while the particle lives, at most 1.25 seconds. *)
Theorem radius_stays_small (draws : nat -> R) (w : FireWidget) :
  (forall n, 0 <= draws n < 1) ->
  reachable draws w ->
  Forall (fun p => 0.03 <= radius p < 0.102) (particles w).
Proof.
  intros Hd Hr.
  pose proof (reachable_radius_bounded draws w Hd Hr) as Hb.
  destruct (reachable_ok draws w Hd Hr) as (_ & _ & Hok).
  rewrite Forall_forall in *. intros p Hin.
  destruct (Hb p Hin) as (Hlo & Hhi).
  destruct (Hok p Hin) as (_ & Hl0 & Hl).
  split; [exact Hlo |].
  set (x := 0.25 * (life0 p - life p)) in *.
  assert (Hx : 0 <= x < 0.3125) by (unfold x; lra).
  pose proof (exp_small x) as He. pose proof (exp_pos x) as Hp.
  assert (He' : exp x * (1 - x) <= 1) by (apply He; lra).
  assert (Hex : exp x < 1.455) by nra.
  lra.
Qed.

Lemma radius_stays_small_witness :
  Forall (fun p => 0.03 <= radius p < 0.102)
    (particles (fst (_spawn_particles (fun _ => 0) init_widget 0%nat))).
Proof.
  apply (radius_stays_small (fun _ => 0)).
  - intros n. lra.
  - apply reach_spawn, reach_init.
Defined.

(** ** Lifetime and population *)

Lemma run_updates_life (step : R) (params : list (R * R * R * R))
  (p : FireParticle) :
  0 <= step ->
  (INR (length params) * step < life p ->
   exists q, run_updates (bodies_of step params) p = Some q /\
             life q = life p - INR (length params) * step /\
             life0 q = life0 p) /\
  (0 < life p <= INR (length params) * step ->
   run_updates (bodies_of step params) p = None).
Proof.
  intros Hs. revert p.
  induction params as [| [[[b sw] d] t] params IH]; intros p.
  - cbn [length INR bodies_of map run_updates]. split.
    + intros _. exists p. repeat split; lra.
    + intros H. lra.
  - cbn [bodies_of map run_updates]. fold (bodies_of step params).
    rewrite length_cons, S_INR.
    pose proof (update_body_life b sw d t step p) as Hl.
    pose proof (update_body_life0 b sw d t step p) as Hl0.
    pose proof (update_body_kept b sw d t step p) as Hk.
    destruct (update_body b sw d t step p) as [p' kept].
    cbn [fst snd] in Hl, Hl0, Hk.
    pose proof (pos_INR (length params)) as Hn.
    assert (Hns : 0 <= INR (length params) * step)
      by (apply Rmult_le_pos; assumption).
    destruct (IH p') as [IH1 IH2]. split.
    + intros H.
      assert (Hkept : kept = true) by (apply Hk; lra).
      rewrite Hkept.
      destruct IH1 as (q & Hq & Hlq & Hl0q); [lra |].
      exists q. split; [exact Hq |]. split; lra.
    + intros H. destruct kept; [| reflexivity].
      apply IH2. assert (0 < life p - step) by (now apply Hk). lra.
Qed.

(** X10. How long a particle lives.  A particle as spawned ([life = life0]
    in [0.55, 1.25]) that goes through successive [_update_particles]
    calls, whatever their other constants, with a time step of 1/120 up to
    rounding (between 0.008333 and 0.008334), is kept by the first 65 and
    has lost between [n * 0.008333] and [n * 0.008334] of its life after
    [n] of them, and it has been left out by the 151st at the latest. *)
Theorem particle_lifetime
  (step : R) (params : list (R * R * R * R)) (p : FireParticle) :
  0.008333 <= step <= 0.008334 ->
  life p = life0 p ->
  0.55 <= life0 p <= 1.25 ->
  ((length params <= 65)%nat ->
   exists q, run_updates (bodies_of step params) p = Some q /\
             life0 p - INR (length params) * 0.008334 <= life q
               <= life0 p - INR (length params) * 0.008333 /\
             life0 q = life0 p) /\
  ((151 <= length params)%nat ->
   run_updates (bodies_of step params) p = None).
Proof.
  intros Hs Hfresh Hl0.
  destruct (run_updates_life step params p) as [H1 H2]; [lra |].
  pose proof (pos_INR (length params)) as Hn0. split.
  - intros Hn. apply le_INR in Hn.
    replace (INR 65) with 65 in Hn by (cbn; lra).
    destruct H1 as (q & Hq & Hlq & Hl0q); [nra |].
    exists q. split; [exact Hq |]. split; [split; nra | exact Hl0q].
  - intros Hn. apply le_INR in Hn.
    replace (INR 151) with 151 in Hn by (cbn; lra).
    apply H2. nra.
Qed.

Lemma particle_lifetime_witness :
  let p := mkParticle (mkVec 0 (-1) 0) (mkVec 0 1 0) 1.25 1.25 0.05 0 in
  let c := (2, 1, 0.99, 0) in
  (exists q, run_updates (bodies_of (1 / 120) (repeat c 65)) p = Some q /\
             life0 p - INR (length (repeat c 65)) * 0.008334 <= life q
               <= life0 p - INR (length (repeat c 65)) * 0.008333 /\
             life0 q = life0 p) /\
  run_updates (bodies_of (1 / 120) (repeat c 151)) p = None.
Proof.
  intros p c. split.
  - apply (particle_lifetime (1 / 120) (repeat c 65) p).
    + lra.
    + reflexivity.
    + cbn [life0 p]. lra.
    + rewrite repeat_length. lia.
  - apply (particle_lifetime (1 / 120) (repeat c 151) p).
    + lra.
    + reflexivity.
    + cbn [life0 p]. lra.
    + rewrite repeat_length. lia.
Defined.

Lemma layered_length (j : nat) (ps : list FireParticle) :
  layered j ps -> (length ps <= 11 * (150 - j))%nat.
Proof.
  intros H. induction H as [j | j older batch Hold IH Hlen Hlife].
  - cbn. lia.
  - rewrite length_app.
    destruct (Nat.lt_ge_cases j 150) as [Hj | Hj]; [lia |].
    destruct batch as [| p batch].
    + cbn [length]. lia.
    + exfalso. apply Forall_inv in Hlife.
      apply le_INR in Hj. replace (INR 150) with 150 in Hj by (cbn; lra).
      lra.
Qed.

Lemma survivors_length (body : FireParticle -> FireParticle * bool)
  (ps : list FireParticle) :
  (length (survivors body ps) <= length ps)%nat.
Proof. unfold survivors. rewrite length_map. apply filter_length_le. Qed.

Lemma layered_survivors (b sw d t : R) (j : nat) (ps : list FireParticle) :
  layered j ps ->
  layered (S j) (survivors (update_body b sw d t (1 / 120)) ps).
Proof.
  intros H. induction H as [j | j older batch Hold IH Hlen Hlife].
  - apply layered_nil.
  - rewrite survivors_app. apply layered_snoc.
    + exact IH.
    + pose proof (survivors_length (update_body b sw d t (1 / 120)) batch).
      lia.
    + apply Forall_forall. intros q Hq. apply survivors_in in Hq.
      destruct Hq as (p & Hin & Hk & ->).
      apply update_body_kept in Hk. rewrite update_body_life.
      rewrite Forall_forall in Hlife. pose proof (Hlife p Hin) as Hp.
      rewrite S_INR. lra.
Qed.

Lemma tick_is_spawn_then_update (draws : nat -> R) (remaining : Z)
  (w : FireWidget) (k : nat) :
  fst (tick draws remaining w k) =
  _update_particles remaining
    (dt (fst (_spawn_particles draws w k)))
    (fst (_spawn_particles draws w k)).
Proof.
  unfold tick, bind, ret.
  destruct (_spawn_particles draws w k) as [w1 k1]. reflexivity.
Qed.

Lemma running_reachable (draws : nat -> R) (w : FireWidget) :
  running draws w -> reachable draws w.
Proof.
  intros H. induction H as [| w v H IH Hv | w dx dy H IH | w k remaining H IH].
  - apply reach_init.
  - now apply reach_energy.
  - now apply reach_mouse.
  - rewrite tick_is_spawn_then_update. apply reach_update, reach_spawn, IH.
Qed.

Lemma running_layered (draws : nat -> R) (w : FireWidget) :
  (forall n, 0 <= draws n < 1) -> running draws w ->
  layered 1 (particles w).
Proof.
  intros Hd H.
  induction H as [| w v H IH Hv | w dx dy H IH | w k remaining H IH].
  - apply layered_nil.
  - exact IH.
  - exact IH.
  - pose proof (running_reachable draws w H) as Hr.
    destruct (reachable_energy_dt draws w Hr) as (He & Hdt).
    pose proof (layered_length 1 (particles w) IH) as Hlen.
    pose proof (inserted_bounds draws w k He) as [[_ Hins] _].
    rewrite tick_particles, spawn_particles_inserted, Hdt.
    rewrite cap_small by (rewrite length_app; lia).
    unfold body_of. apply layered_survivors.
    apply layered_snoc; [exact IH | exact Hins |].
    pose proof (inserted_ok draws w k Hd He) as Hok.
    eapply Forall_impl; [| exact Hok].
    intros p (_ & Hl0 & Hl). cbn [INR]. lra.
Qed.

(** X11. Driven by its timer (draws in [0,1)), the program never has more
    than 1639 particles between two ticks, and no more than 1650 right
    after [_spawn_particles], which inserts at most 11 particles.  So the
    cap at 2500 never removes a particle: the call returns the old
    particles followed by the new ones. *)
Theorem population_bounded (draws : nat -> R) (w : FireWidget) (k : nat) :
  (forall n, 0 <= draws n < 1) ->
  running draws w ->
  (length (particles w) <= 1639)%nat /\
  (length (inserted draws w k) <= 11)%nat /\
  particles (fst (_spawn_particles draws w k))
  = particles w ++ inserted draws w k /\
  (length (particles (fst (_spawn_particles draws w k))) <= 1650)%nat.
Proof.
  intros Hd Hrun.
  pose proof (layered_length 1 _ (running_layered draws w Hd Hrun)) as Hlen.
  pose proof (running_reachable draws w Hrun) as Hr.
  destruct (reachable_energy_dt draws w Hr) as (He & _).
  pose proof (inserted_bounds draws w k He) as [[_ Hins] _].
  assert (Hsp : particles (fst (_spawn_particles draws w k))
                = particles w ++ inserted draws w k).
  { rewrite spawn_particles_inserted. apply cap_small.
    rewrite length_app. lia. }
  split; [lia |]. split; [exact Hins |]. split; [exact Hsp |].
  rewrite Hsp, length_app. lia.
Qed.

Lemma population_bounded_witness :
  let draws := fun _ : nat => 0 in
  let w := fst (tick draws 0 init_widget 0%nat) in
  (length (particles w) <= 1639)%nat /\
  (length (inserted draws w 7) <= 11)%nat /\
  particles (fst (_spawn_particles draws w 7%nat))
  = particles w ++ inserted draws w 7 /\
  (length (particles (fst (_spawn_particles draws w 7%nat))) <= 1650)%nat.
Proof.
  intros draws w. apply (population_bounded draws w 7).
  - intros n. unfold draws. lra.
  - apply run_tick, run_init.
Defined.

(** ** The particle pass *)

Lemma parts_sorted_forall (P : FireParticle -> Prop) (w : FireWidget) :
  Forall P (particles w) -> Forall P (parts_sorted w).
Proof.
  intros H. rewrite Forall_forall in *. intros p Hin. apply H.
  eapply Permutation_in; [| exact Hin].
  apply Permutation_sym, sorted_reverse_perm.
Qed.

(** X12. What [paintGL] draws in a state the program reaches (draws in
    [0,1)): every sphere has a radius in [0.03, 0.102), an alpha between
    0.02 and 0.2, a colour with every component in [0.0125, 1], and a
    centre at height -1 or above. *)
Theorem spheres_visible (draws : nat -> R) (w : FireWidget) :
  (forall n, 0 <= draws n < 1) ->
  reachable draws w ->
  Forall
    (fun s =>
       0.03 <= sph_radius s < 0.102 /\
       0.02 <= sph_alpha s <= 0.2 /\
       0.0125 <= chan0 (sph_rgb s) <= 1 /\
       0.0125 <= chan1 (sph_rgb s) <= 1 /\
       0.0125 <= chan2 (sph_rgb s) <= 1 /\
       -1 <= sph_y s)
    (paintGL w).
Proof.
  intros Hd Hr. unfold paintGL. apply Forall_map.
  pose proof (reachable_radius_range draws w Hd Hr) as Hrad.
  pose proof (reachable_rising draws w Hd Hr) as Hrise.
  destruct (reachable_ok draws w Hd Hr) as (_ & _ & Hok).
  assert (Hall : Forall (fun p => (0.03 <= radius p < 0.102) /\
                                  particle_rising p /\ particle_ok p)
                   (particles w)).
  { rewrite Forall_forall in *. intros p Hin. auto. }
  apply parts_sorted_forall in Hall.
  eapply Forall_impl; [| exact Hall].
  intros p (Hr1 & (_ & Hy) & (_ & Hl0 & Hl)).
  unfold draw_particle; cbn [sph_radius sph_alpha sph_rgb sph_y].
  pose proof (fire_color_ceiling (energy w) (age01_of p)) as (U0 & U1 & U2).
  pose proof (fire_color_floor (energy w) (age01_of p)) as (B0 & B1 & B2).
  assert (Hage : 0 <= age01_of p < 1).
  { rewrite age01_of_spec by lra. unfold Rdiv.
    assert (Hi : 0 < / life0 p) by (apply Rinv_0_lt_compat; lra).
    assert (Hone : life0 p * / life0 p = 1) by (apply Rinv_r; lra).
    set (i := / life0 p) in *. split; nra. }
  repeat split; try lra.
Qed.

Lemma spheres_visible_witness :
  Forall
    (fun s =>
       0.03 <= sph_radius s < 0.102 /\
       0.02 <= sph_alpha s <= 0.2 /\
       0.0125 <= chan0 (sph_rgb s) <= 1 /\
       0.0125 <= chan1 (sph_rgb s) <= 1 /\
       0.0125 <= chan2 (sph_rgb s) <= 1 /\
       -1 <= sph_y s)
    (paintGL (fst (_spawn_particles (fun _ => 0) init_widget 0%nat))).
Proof.
  apply (spheres_visible (fun _ => 0)).
  - intros n. lra.
  - apply reach_spawn, reach_init.
Defined.

Lemma insert_desc_filter {A : Type} (key : A -> R) (c : R) (x : A)
  (l : list A) :
  filter (key_is key c) (insert_desc key x l)
  = filter (key_is key c) (x :: l).
Proof.
  induction l as [| y l IH]; cbn [insert_desc].
  - reflexivity.
  - destruct (Rlt_dec (key x) (key y)) as [Hlt | Hge]; [| reflexivity].
    cbn [filter] in *. rewrite IH.
    destruct (key_is key c x) eqn:Hx; destruct (key_is key c y) eqn:Hy;
      try reflexivity.
    exfalso. unfold key_is in Hx, Hy.
    destruct (Req_dec_T (key x) c); [| discriminate].
    destruct (Req_dec_T (key y) c); [| discriminate].
    lra.
Qed.

Lemma sorted_reverse_fixed {A : Type} (key : A -> R) (l : list A) :
  StronglySorted (desc key) l -> sorted_reverse key l = l.
Proof.
  intros H. induction H as [| x l Hs IH Hx]; cbn [sorted_reverse fold_right].
  - reflexivity.
  - fold (sorted_reverse key l). rewrite IH.
    destruct l as [| y l]; cbn [insert_desc]; [reflexivity |].
    apply Forall_inv in Hx. unfold desc in Hx.
    destruct (Rlt_dec (key x) (key y)); [lra | reflexivity].
Qed.

(** X13. The draw order is stable.  Particles of equal depth are drawn in
    the order in which they stand in the collection; a collection that is
    already in descending depth order is drawn as it stands, so sorting the
    sorted list again changes nothing. *)
Theorem paint_order_stable (w : FireWidget) :
  (forall c : R,
     filter (key_is depth c) (parts_sorted w)
     = filter (key_is depth c) (particles w)) /\
  (StronglySorted (desc depth) (particles w) ->
   parts_sorted w = particles w) /\
  sorted_reverse depth (parts_sorted w) = parts_sorted w.
Proof.
  split; [| split].
  - intros c. unfold parts_sorted.
    induction (particles w) as [| p ps IH]; [reflexivity |].
    cbn [sorted_reverse fold_right]. fold (sorted_reverse depth ps).
    rewrite insert_desc_filter. cbn [filter]. now rewrite IH.
  - apply sorted_reverse_fixed.
  - apply sorted_reverse_fixed, sorted_reverse_sorted.
Qed.

(** ** Mouse rotation *)





(** ** Static scene geometry *)

(** X15. [resizeGL] never divides by zero: the height is replaced by 1 when
    it is below 1, so a window of height 0 gets the aspect ratio [w]; from
    height 1 on the ratio is [w / h], and it is positive for a positive
    width. *)
Theorem resize_aspect_guarded (w h : Z) :
  1 <= IZR (Z.max h 1) /\
  ((h < 1)%Z -> resize_aspect w h = IZR w) /\
  ((1 <= h)%Z -> resize_aspect w h = IZR w / IZR h) /\
  ((0 < w)%Z -> 0 < resize_aspect w h).
Proof.
  assert (Hm : 1 <= IZR (Z.max h 1)) by (apply IZR_le; lia).
  split; [exact Hm |]. unfold resize_aspect.
  split; [| split].
  - intros Hh. rewrite Z.max_r by lia. lra.
  - intros Hh. rewrite Z.max_l by lia. reflexivity.
  - intros Hw. apply IZR_lt in Hw.
    apply Rdiv_lt_0_compat; lra.
Qed.

Lemma rim_on_circle (i : nat) :
  fst (fst (burner_rim i)) * fst (fst (burner_rim i))
  + snd (burner_rim i) * snd (burner_rim i) = 0.35 * 0.35 /\
  snd (fst (burner_rim i)) = -1.
Proof.
  unfold burner_rim; cbn [fst snd].
  pose proof (sin2_cos2 (INR i / 40.0 * tau)) as Hc. unfold Rsqr in Hc.
  split; [| lra].
  replace (cos (INR i / 40.0 * tau) * 0.35 * (cos (INR i / 40.0 * tau) * 0.35)
           + sin (INR i / 40.0 * tau) * 0.35 * (sin (INR i / 40.0 * tau) * 0.35))
    with ((sin (INR i / 40.0 * tau) * sin (INR i / 40.0 * tau)
           + cos (INR i / 40.0 * tau) * cos (INR i / 40.0 * tau))
          * (0.35 * 0.35)) by ring.
  rewrite Hc. lra.
Qed.

(** X16. [_draw_burner] emits a fan that closes: 42 vertices, the centre
    (0, -1, 0) first and then 41 rim vertices, all at height -1 and each rim
    vertex at distance 0.35 from the vertical axis (its square between
    0.1224 and 0.1226); the first rim vertex is (0.35, -1, 0) and the last
    one lies within 1e-9 of it. *)
Theorem burner_fan_closed :
  length _draw_burner = 42%nat /\
  hd (0, 0, 0) _draw_burner = (0, -1, 0) /\
  Forall (fun v => snd (fst v) = -1) _draw_burner /\
  Forall
    (fun v => 0.1224 <= fst (fst v) * fst (fst v) + snd v * snd v <= 0.1226)
    (tl _draw_burner) /\
  nth 1 _draw_burner (0, 0, 0) = (0.35, -1, 0) /\
  (let v := nth 41 _draw_burner (0, 0, 0) in
   0.35 - 1e-9 <= fst (fst v) <= 0.35 + 1e-9 /\
   snd (fst v) = -1 /\
   - 1e-9 <= snd v <= 1e-9).
Proof.
  assert (H0 : burner_rim 0 = (0.35, -1, 0)).
  { unfold burner_rim. cbn [INR].
    replace (0 / 40.0 * tau) with 0 by lra.
    rewrite cos_0, sin_0. f_equal; [f_equal |]; lra. }
  assert (H40 : burner_rim 40 = (0.35, -1, 0)).
  { unfold burner_rim.
    replace (INR 40 / 40.0 * tau) with (2 * PI)
      by (unfold tau; replace (INR 40) with 40 by (cbn; lra); lra).
    rewrite cos_2PI, sin_2PI. f_equal; [f_equal |]; lra. }
  unfold _draw_burner.
  split; [cbn [length]; now rewrite length_map, length_seq |].
  split; [cbn [hd]; f_equal; [f_equal |]; lra |].
  split.
  { constructor; [cbn [fst snd]; lra |].
    apply Forall_map, Forall_forall. intros i _. apply rim_on_circle. }
  split.
  { cbn [tl]. apply Forall_map, Forall_forall. intros i _.
    destruct (rim_on_circle i) as [Hc _]. lra. }
  split.
  - change (nth 1 ((0.0, -1.0, 0.0) :: map burner_rim (seq 0 41)) (0, 0, 0))
      with (burner_rim 0). exact H0.
  - change (nth 41 ((0.0, -1.0, 0.0) :: map burner_rim (seq 0 41)) (0, 0, 0))
      with (burner_rim 40).
    rewrite H40. cbn [fst snd]. repeat split; lra.
Qed.

(** X17. [_draw_faint_box] raises no [IndexError] and emits 24 vertices,
    two per edge.  Each of the 12 index pairs joins two corners at squared
    distance [4 * s * s], that is one edge of the cube of half side [s], and
    every one of the 8 corners is the end of exactly 3 of them. *)
Theorem faint_box_is_cube (s : R) :
  (exists vs, _draw_faint_box s = Some vs /\ length vs = 24%nat) /\
  Forall
    (fun e =>
       exists va vb,
         nth_error (box_corners s) (fst e) = Some va /\
         nth_error (box_corners s) (snd e) = Some vb /\
         dist2 va vb = 4 * s * s)
    box_edges /\
  Forall
    (fun i =>
       count_occ Nat.eq_dec
         (flat_map (fun e => [fst e; snd e]) box_edges) i = 3%nat)
    (seq 0 (length (box_corners s))).
Proof.
  split; [| split].
  - unfold _draw_faint_box, box_edges, box_corners.
    cbn [box_lines nth_error]. eexists. split; reflexivity.
  - unfold box_edges, box_corners.
    repeat (constructor;
            [cbn [fst snd nth_error]; eexists; eexists;
             split; [reflexivity |]; split; [reflexivity |];
             unfold dist2; cbn [fst snd]; ring |]).
    constructor.
  - unfold box_corners. cbn [length seq]. unfold box_edges.
    repeat (constructor; [reflexivity |]). constructor.
Qed.

(** ** The tick and the controls *)

(** X18. [tick] touches nothing but the particles: the energy, the two
    camera angles and the time step are after the call what they were
    before it. *)
Theorem tick_keeps_controls
  (draws : nat -> R) (remaining : Z) (w : FireWidget) (k : nat) :
  energy (fst (tick draws remaining w k)) = energy w /\
  rot_x (fst (tick draws remaining w k)) = rot_x w /\
  rot_y (fst (tick draws remaining w k)) = rot_y w /\
  dt (fst (tick draws remaining w k)) = dt w.
Proof.
  rewrite tick_is_spawn_then_update.
  unfold _update_particles; cbn [energy rot_x rot_y dt set_particles].
  unfold _spawn_particles, bind.
  destruct (spawn_count draws (energy w) k) as [c k1].
  destruct (spawn_loop draws (range_len c) (energy w) (particles w) k1)
    as [ps k2].
  repeat split; reflexivity.
Qed.

(** ** Ranges at birth and over the lifetime *)

(** X19. For an energy in [0,1] and draws in [0,1), every inserted particle
    has its full life, [life = life0], with [life0], up to 1e-9, between
    [lerp(0.55, 0.85, e)] and [lerp(0.85, 1.25, e)], and a radius, up to
    1e-9, between [lerp(0.045, 0.030, e)] and [lerp(0.070, 0.050, e)]; both
    radius bounds go down as the energy goes up. *)
Theorem spawn_life_radius_range (draws : nat -> R) (w : FireWidget) (k : nat) :
  (forall n, 0 <= draws n < 1) ->
  0 <= energy w <= 1 ->
  Forall
    (fun p =>
       life p = life0 p /\
       _lerp 0.55 0.85 (energy w) - 1e-9 <= life0 p
         <= _lerp 0.85 1.25 (energy w) + 1e-9 /\
       _lerp 0.045 0.030 (energy w) - 1e-9 <= radius p
         <= _lerp 0.070 0.050 (energy w) + 1e-9)
    (inserted draws w k) /\
  (forall e1 e2, e1 <= e2 ->
     _lerp 0.045 0.030 e2 <= _lerp 0.045 0.030 e1 /\
     _lerp 0.070 0.050 e2 <= _lerp 0.070 0.050 e1).
Proof.
  intros Hd He. split.
  - unfold inserted. apply spawned_forall. intros i.
    destruct (new_particle_fields draws (energy w) i) as (Hl & Hl0 & Hr & _).
    cbv zeta in Hl, Hl0, Hr. rewrite Hl, Hl0, Hr.
    pose proof (Hd (i + 6)%nat) as H6. pose proof (Hd (i + 7)%nat) as H7.
    unfold _lerp. repeat split; nra.
  - intros e1 e2 H. unfold _lerp. split; lra.
Qed.

Lemma spawn_life_radius_range_witness :
  Forall
    (fun p =>
       life p = life0 p /\
       _lerp 0.55 0.85 (energy init_widget) - 1e-9 <= life0 p
         <= _lerp 0.85 1.25 (energy init_widget) + 1e-9 /\
       _lerp 0.045 0.030 (energy init_widget) - 1e-9 <= radius p
         <= _lerp 0.070 0.050 (energy init_widget) + 1e-9)
    (inserted (fun _ => 0) init_widget 0).
Proof.
  apply (spawn_life_radius_range (fun _ => 0) init_widget 0).
  - intros n. lra.
  - cbn [energy init_widget]. lra.
Defined.

Lemma new_particle_bounded (draws : nat -> R) (e : R) (k : nat) :
  (forall n, 0 <= draws n < 1) -> 0 <= e <= 1 ->
  particle_bounded (fst (new_particle draws e k)).
Proof.
  intros Hd He.
  destruct (new_particle_motion draws e k) as (Hpos & Hvel & _).
  destruct (new_particle_fields draws e k) as (Hl & _).
  cbv zeta in Hpos, Hvel, Hl. unfold particle_bounded.
  rewrite Hpos, Hvel, Hl. cbn [vec_x vec_y vec_z].
  replace (life0 (fst (new_particle draws e k))
           - life0 (fst (new_particle draws e k))) with 0 by ring.
  pose proof (Hd (k + 1)%nat) as H1. pose proof (Hd (k + 2)%nat) as H2.
  pose proof (Hd (k + 3)%nat) as H3. pose proof (Hd (k + 4)%nat) as H4.
  pose proof (Hd (k + 5)%nat) as H5.
  assert (Hpw : 0 <= py_pow (draws (k + 1)%nat) 0.6 <= 1)
    by (apply py_pow_unit; lra).
  set (pw := py_pow (draws (k + 1)%nat) 0.6) in *.
  pose proof (COS_bound (draws k * tau)) as Hc.
  pose proof (SIN_bound (draws k * tau)) as Hs.
  set (c := cos (draws k * tau)) in *. set (s := sin (draws k * tau)) in *.
  assert (Hrad : 0 <= pw * (0.18 + 0.10 * (1.0 - e)) <= 0.28) by nra.
  set (rad := pw * (0.18 + 0.10 * (1.0 - e))) in *.
  unfold _lerp. repeat split; nra.
Qed.

Lemma update_body_kinematics
  (buoyancy swirl damping t step : R) (p : FireParticle) :
  0 < life p - step ->
  let q := fst (update_body buoyancy swirl damping t step p) in
  exists tx tz,
    -1 <= tx <= 1 /\ -1 <= tz <= 1 /\
    vec_x (vel q) = (vec_x (vel p) + tx * swirl * step) * damping /\
    vec_y (vel q) = (vec_y (vel p) + buoyancy * step) * damping /\
    vec_z (vel q) = (vec_z (vel p) + tz * swirl * step) * damping /\
    vec_x (pos q) = (vec_x (pos p) + vec_x (vel q) * step) * 0.999 /\
    vec_y (pos q) = vec_y (pos p) + vec_y (vel q) * step /\
    vec_z (pos q) = (vec_z (pos p) + vec_z (vel q) * step) * 0.999.
Proof.
  intros Hk. unfold update_body.
  destruct (Rle_dec (life p - step) 0); [lra |].
  cbn [fst vel pos vec_x vec_y vec_z].
  set (phase := seed p * 0.001
                + (1.0 - (life p - step) / Rmax (life0 p) 1e-6) * 6.0
                + t * 3.0).
  exists (sin (phase * 3.7) * cos (phase * 1.9)),
         (cos (phase * 2.9) * sin (phase * 2.3)).
  pose proof (SIN_bound (phase * 3.7)) as S1.
  pose proof (COS_bound (phase * 1.9)) as C1.
  pose proof (COS_bound (phase * 2.9)) as C2.
  pose proof (SIN_bound (phase * 2.3)) as S2.
  split; [split; nra |]. split; [split; nra |].
  repeat split; reflexivity.
Qed.

Lemma damped_speed (v a d : R) :
  - 2.5 <= v <= 2.5 -> - (2.1 / 120) <= a <= 2.1 / 120 -> 0 < d <= 0.992 ->
  - 2.5 <= (v + a) * d <= 2.5.
Proof. intros Hv Ha Hd. split; nra. Qed.

Lemma centred_step (x v B : R) :
  0 <= B -> - B <= x <= B -> - 2.5 <= v <= 2.5 ->
  - (B + 2.5 * (1 / 120)) <= (x + v * (1 / 120)) * 0.999
  <= B + 2.5 * (1 / 120).
Proof. intros HB Hx Hv. split; nra. Qed.

Lemma update_body_bounded (buoyancy swirl damping t : R) (p : FireParticle) :
  0 < buoyancy <= 3.2 -> 0 < swirl <= 2.1 -> 0 < damping <= 0.992 ->
  life p <= life0 p ->
  particle_bounded p -> 0 < life p - 1 / 120 ->
  particle_bounded (fst (update_body buoyancy swirl damping t (1 / 120) p)).
Proof.
  intros Hb Hs Hd Hl (Hvx & Hvz & Hvy & Hx & Hz & Hy) Hk.
  destruct (update_body_kinematics buoyancy swirl damping t (1 / 120) p Hk)
    as (tx & tz & Htx & Htz & Ex & Ey & Ez & Px & Py & Pz).
  cbv zeta in Ex, Ey, Ez, Px, Py, Pz.
  unfold particle_bounded.
  rewrite update_body_life, update_body_life0.
  set (q := fst (update_body buoyancy swirl damping t (1 / 120) p)) in *.
  assert (Ax : - (2.1 / 120) <= tx * swirl * (1 / 120) <= 2.1 / 120)
    by (split; nra).
  assert (Az : - (2.1 / 120) <= tz * swirl * (1 / 120) <= 2.1 / 120)
    by (split; nra).
  assert (Qx : - 2.5 <= vec_x (vel q) <= 2.5)
    by (rewrite Ex; apply damped_speed; assumption).
  assert (Qz : - 2.5 <= vec_z (vel q) <= 2.5)
    by (rewrite Ez; apply damped_speed; assumption).
  assert (Qy : vec_y (vel q) <= 3.5).
  { rewrite Ey.
    destruct (Rle_dec 0 (vec_y (vel p) + buoyancy * (1 / 120))); nra. }
  set (B := 0.28 + 2.5 * (life0 p - life p)) in *.
  assert (HB : 0 <= B) by (unfold B; lra).
  replace (0.28 + 2.5 * (life0 p - (life p - 1 / 120)))
    with (B + 2.5 * (1 / 120)) by (unfold B; lra).
  split; [exact Qx |]. split; [exact Qz |]. split; [exact Qy |].
  split; [rewrite Px; apply centred_step; assumption |].
  split; [rewrite Pz; apply centred_step; assumption |].
  rewrite Py. lra.
Qed.

Lemma reachable_bounded (draws : nat -> R) (w : FireWidget) :
  (forall n, 0 <= draws n < 1) -> reachable draws w ->
  Forall particle_bounded (particles w).
Proof.
  intros Hd Hr. induction Hr as [| w v Hr IH Hv | w dx dy Hr IH | w k Hr IH
                                | w remaining Hr IH].
  - constructor.
  - exact IH.
  - exact IH.
  - destruct (reachable_energy_dt draws w Hr) as (He & _).
    rewrite spawn_particles_inserted. apply cap_forall, Forall_app.
    split; [exact IH |]. unfold inserted. apply spawned_forall.
    intros i. now apply new_particle_bounded.
  - destruct (reachable_energy_dt draws w Hr) as (He & Hdt).
    destruct (reachable_ok draws w Hd Hr) as (_ & _ & Hok).
    rewrite update_particles_survivors. apply Forall_forall. intros q Hq.
    apply survivors_in in Hq. destruct Hq as (p & Hin & Hk & ->).
    unfold body_of in *. apply update_body_kept in Hk.
    rewrite Forall_forall in IH, Hok.
    destruct (Hok p Hin) as (_ & _ & Hl).
    rewrite Hdt in *.
    apply update_body_bounded; try (unfold _lerp; lra); try lra.
    now apply IH.
Qed.

(** X20. The flame stays in a bounded region and never speeds up without
    limit.  In every state the program reaches (draws in [0,1)) each
    particle has sideways velocities within 2.5 and an upward velocity of at
    most 3.5, lies within 3.41 of the origin along [x] and along [z], and
    is at a height between -1 and 3.43. *)
Theorem flame_stays_bounded (draws : nat -> R) (w : FireWidget) :
  (forall n, 0 <= draws n < 1) ->
  reachable draws w ->
  Forall
    (fun p =>
       - 2.5 <= vec_x (vel p) <= 2.5 /\
       - 2.5 <= vec_z (vel p) <= 2.5 /\
       0 < vec_y (vel p) <= 3.5 /\
       - 3.41 < vec_x (pos p) < 3.41 /\
       - 3.41 < vec_z (pos p) < 3.41 /\
       -1 <= vec_y (pos p) < 3.43)
    (particles w).
Proof.
  intros Hd Hr.
  pose proof (reachable_bounded draws w Hd Hr) as Hb.
  pose proof (reachable_rising draws w Hd Hr) as Hrise.
  destruct (reachable_ok draws w Hd Hr) as (_ & _ & Hok).
  rewrite Forall_forall in *. intros p Hin.
  destruct (Hb p Hin) as (Hvx & Hvz & Hvy & Hx & Hz & Hy).
  destruct (Hrise p Hin) as (Hup & Hlow).
  destruct (Hok p Hin) as (_ & Hl0 & Hl).
  repeat split; lra.
Qed.

Lemma flame_stays_bounded_witness :
  Forall
    (fun p =>
       - 2.5 <= vec_x (vel p) <= 2.5 /\
       - 2.5 <= vec_z (vel p) <= 2.5 /\
       0 < vec_y (vel p) <= 3.5 /\
       - 3.41 < vec_x (pos p) < 3.41 /\
       - 3.41 < vec_z (pos p) < 3.41 /\
       -1 <= vec_y (pos p) < 3.43)
    (particles (fst (tick (fun _ => 0) 0 init_widget 0%nat))).
Proof.
  apply (flame_stays_bounded (fun _ => 0)).
  - intros n. lra.
  - rewrite tick_is_spawn_then_update. apply reach_update, reach_spawn, reach_init.
Defined.
